(** * Keyboard control service of angular-cesium

    A shallow embedding of
    [src/angular-cesium/services/keyboard-control/keyboard-control.service.ts]
    and the properties of its key state machine.

    Layout:
    - JavaScript strings, plain objects and the order of [Object.keys];
    - values handed to and returned by the callbacks of a definition;
    - a state-and-exception monad in which a thrown exception keeps the
      mutations that happened before it;
    - the service, method by method, and its runs;
    - a small application, used in the scenarios;
    - lemmas on objects, the effect of each method, the invariants of the
      reachable states;
    - the properties of the service (C1 to C10), then further properties
      of the same methods (X1 to X20);
    - the scenarios.

    What the model takes for granted:
    - a callback acts on the rest of the application (the [World]) and does
      not call the methods of the service while it runs;
    - the objects handed to [setKeyboardControls] are not mutated by the
      caller afterwards, so they are values here;
    - the key mapping function is a pure function of the event;
    - the objects are plain ones, and a lookup [o[k]] is modelled for the
      names [k] that [Object.prototype] does not define (a lookup of
      [toString], [constructor] and the like finds the inherited member in
      JavaScript; [inherited_name] lists these names, and the statements
      that depend on the difference exclude them);
    - [init] (the focus listener of the canvas and the binding of the
      handlers) has run; it is not modelled. *)

From Stdlib Require Import List ZArith NArith Bool Lia Permutation String Ascii.
Import ListNotations.

Set Implicit Arguments.
Local Set Warnings "-register-all".

(* ===================================================================== *)
(** ** JavaScript strings and plain objects *)
(* ===================================================================== *)

(** A JavaScript string is a sequence of UTF-16 code units. *)
Definition JsString := list N.

Definition JsString_eq_dec : forall a b : JsString, {a = b} + {a <> b} :=
  list_eq_dec N.eq_dec.

(** Reading of a Rocq string literal as a JavaScript string (code units
    below 256). *)
Definition js (s : string) : JsString := map N_of_ascii (list_ascii_of_string s).

(** [String.fromCharCode(c)]: the code is taken modulo 2^16 (ToUint16). *)
Definition String_fromCharCode (c : Z) : JsString := [Z.to_N (c mod 65536)].

(** An own-property table in insertion order.  The prototype chain is not
    part of the model: a lookup sees own properties only. *)
Definition JsObj (V : Type) := list (JsString * V).

(** [o[k]]: [None] stands for [undefined]. *)
Fixpoint obj_get {V} (k : JsString) (o : JsObj V) : option V :=
  match o with
  | [] => None
  | (k', v) :: r => if JsString_eq_dec k k' then Some v else obj_get k r
  end.

(** [o[k] = v]: an existing property keeps its place, a new one is added
    last. *)
Fixpoint obj_set {V} (k : JsString) (v : V) (o : JsObj V) : JsObj V :=
  match o with
  | [] => [(k, v)]
  | (k', v') :: r =>
      if JsString_eq_dec k k' then (k, v) :: r else (k', v') :: obj_set k v r
  end.

Definition is_digit (c : N) : bool := (48 <=? c)%N && (c <=? 57)%N.

Fixpoint digits_value (acc : N) (s : JsString) : option N :=
  match s with
  | [] => Some acc
  | c :: r => if is_digit c then digits_value (10 * acc + (c - 48))%N r else None
  end.

(** A property name is an array index when it is the canonical decimal
    form of an integer in [0, 2^32 - 2]. *)
Definition array_index (s : JsString) : option N :=
  match s with
  | [] => None
  | c :: r =>
      if (c =? 48)%N then
        match r with [] => Some 0%N | _ :: _ => None end
      else
        match digits_value 0 s with
        | Some n => if (n <? 4294967295)%N then Some n else None
        | None => None
        end
  end.

Definition is_index (s : JsString) : bool :=
  match array_index s with Some _ => true | None => false end.

Fixpoint index_keys (ks : list JsString) : list (N * JsString) :=
  match ks with
  | [] => []
  | k :: r =>
      match array_index k with
      | Some n => (n, k) :: index_keys r
      | None => index_keys r
      end
  end.

Fixpoint insert_index (x : N * JsString) (l : list (N * JsString)) :=
  match l with
  | [] => [x]
  | y :: r => if (fst x <=? fst y)%N then x :: y :: r else y :: insert_index x r
  end.

Fixpoint sort_index (l : list (N * JsString)) :=
  match l with
  | [] => []
  | x :: r => insert_index x (sort_index r)
  end.

(** [Object.keys(o)]: array indices in ascending numeric order, then the
    other names in insertion order. *)
Definition Object_keys {V} (o : JsObj V) : list JsString :=
  let ks := map fst o in
  map snd (sort_index (index_keys ks)) ++ filter (fun k => negb (is_index k)) ks.

(** The names that a plain object inherits from [Object.prototype].  For
    such a name [o[k]] finds the inherited member when [o] has no own
    property [k]; for every other name [o[k]] is [obj_get k o]. *)
Definition Object_prototype_names : list JsString :=
  map js ["constructor"; "hasOwnProperty"; "isPrototypeOf"; "propertyIsEnumerable";
          "toLocaleString"; "toString"; "valueOf"; "__proto__";
          "__defineGetter__"; "__defineSetter__"; "__lookupGetter__";
          "__lookupSetter__"]%string.

Definition inherited_name (k : JsString) : bool :=
  if in_dec JsString_eq_dec k Object_prototype_names then true else false.

(* ===================================================================== *)
(** ** Values *)
(* ===================================================================== *)

(** The values that cross the boundary between the service and the
    callbacks (parameters, return values, thrown values).  Numbers are
    integers here; functions are not values of this type. *)
Inductive JsValue : Type :=
| JsUndefined
| JsNull
| JsBool (b : bool)
| JsNumber (z : Z)
| JsStr (s : JsString)
| JsObject (fields : list (JsString * JsValue)).

(** [!v] is true for these values. *)
Definition falsy (v : JsValue) : bool :=
  match v with
  | JsUndefined | JsNull | JsBool false | JsNumber 0 | JsStr [] => true
  | _ => false
  end.

(** [v === true] and [v === false]. *)
Definition is_true_literal (v : JsValue) : bool :=
  match v with JsBool true => true | _ => false end.

Definition is_false_literal (v : JsValue) : bool :=
  match v with JsBool false => true | _ => false end.

Inductive Exn : Type :=
| TypeError
| Thrown (v : JsValue).

(** How a call ends: with a value, or with a thrown exception. *)
Inductive Completion (A : Type) : Type :=
| Normal (a : A)
| Abrupt (x : Exn).

Arguments Normal {A} a.
Arguments Abrupt {A} x.

Definition void {A} (c : Completion A) : Completion unit :=
  match c with Normal _ => Normal tt | Abrupt x => Abrupt x end.

(* ===================================================================== *)
(** ** The service *)
(* ===================================================================== *)

Section KeyboardControl.

(** Collaborators of the service that the file only names: the controller
    handle, the DOM keyboard event with its [keyCode], and everything the
    callbacks may read and write ([World]). *)
Variable CesiumService : Type.
Variable KeyboardEvent : Type.
Variable keyCode : KeyboardEvent -> Z.
Variable World : Type.

(** Code supplied by the caller: it runs on the world and ends normally or
    by throwing.  It does not call back into the service. *)
Definition Eff (A : Type) : Type := World -> World * Completion A.

(** The event argument of a callback is whatever the entry holds, [null]
    included. *)
Definition KeyboardControlActionFn : Type :=
  CesiumService -> JsValue -> option KeyboardEvent -> Eff JsValue.
Definition KeyboardControlValidationFn : Type :=
  CesiumService -> JsValue -> option KeyboardEvent -> Eff JsValue.
Definition KeyboardControlDoneFn : Type :=
  CesiumService -> option KeyboardEvent -> Eff JsValue.
Definition ParamsFn : Type :=
  CesiumService -> option KeyboardEvent -> Eff JsValue.

(** [action: KeyboardAction | KeyboardControlActionFn]. *)
Inductive ActionDef : Type :=
| ActionId (id : Z)
| ActionFn (f : KeyboardControlActionFn).

(** [params]: a value (absent is [undefined]) or a function. *)
Inductive ParamsDef : Type :=
| ParamsValue (v : JsValue)
| ParamsFunction (f : ParamsFn).

(** [KeyboardControlParams] (lines 12-17); [validation] and [done] are
    [None] when absent. *)
Record KeyboardControlParams : Type := {
  action : ActionDef;
  validation : option KeyboardControlValidationFn;
  params : ParamsDef;
  done : option KeyboardControlDoneFn
}.

Definition KeyboardControlDefinition : Type := JsObj KeyboardControlParams.

Inductive KeyEventState : Type := IGNORED | NOT_PRESSED | PRESSED.

(** [ActiveDefinition]; its [action] field is [activeAction] here, the name
    [action] being taken by [KeyboardControlParams]. *)
Record ActiveDefinition : Type := {
  keyboardEvent : option KeyboardEvent;
  state : KeyEventState;
  activeAction : option KeyboardControlParams
}.

(** The table imported from [./predefined-actions]. *)
Variable PREDEFINED_KEYBOARD_ACTIONS : Z -> option KeyboardControlActionFn.

(** The fields of the service (lines 105-107, 113). *)
Record KeyboardControlService : Type := {
  _currentDefinitions : option KeyboardControlDefinition;
  _activeDefinitions : JsObj ActiveDefinition;
  _keyMappingFn : KeyboardEvent -> JsString;
  cesiumService : CesiumService
}.

(** The listeners held by [document] and by the clock's [onTick]; the
    boolean is [outsideOfAngularZone] at registration.  [document] keeps one
    copy of a listener, the clock's event keeps every copy. *)
Record EventSources : Type := {
  keydownListener : option bool;
  keyupListener : option bool;
  tickListeners : list bool
}.

(** One call made by the service to caller-supplied code, with its
    arguments and how it ended. *)
Inductive Call : Type :=
| CallParams (e : option KeyboardEvent) (r : Completion JsValue)
| CallValidation (key : JsString) (p : JsValue) (e : option KeyboardEvent)
    (r : Completion JsValue)
| CallAction (key : JsString) (p : JsValue) (e : option KeyboardEvent)
    (r : Completion JsValue)
| CallPredefined (id : Z) (p : JsValue) (e : option KeyboardEvent)
    (r : Completion JsValue)
| CallDone (key : JsString) (e : option KeyboardEvent) (r : Completion JsValue).

(** The whole system: the service, the event sources, the world, and the
    log of the calls made so far (a ghost field, never read by the code). *)
Record Sys : Type := {
  svc : KeyboardControlService;
  sources : EventSources;
  world : World;
  trace : list Call
}.

Definition M (A : Type) : Type := Sys -> Sys * Completion A.

Definition ret {A} (a : A) : M A := fun s => (s, Normal a).

Definition throw {A} (x : Exn) : M A := fun s => (s, Abrupt x).

Definition bind {A B} (m : M A) (k : A -> M B) : M B :=
  fun s =>
    match m s with
    | (s', Normal a) => k a s'
    | (s', Abrupt x) => (s', Abrupt x)
    end.

Notation "x <- m ;; k" := (bind m (fun x => k))
  (at level 61, m at next level, right associativity).
Notation "m ;;; k" := (bind m (fun _ => k))
  (at level 61, right associativity).

Definition gets {A} (f : KeyboardControlService -> A) : M A :=
  fun s => (s, Normal (f (svc s))).

Definition modify_svc (f : KeyboardControlService -> KeyboardControlService) : M unit :=
  fun s =>
    ({| svc := f (svc s); sources := sources s; world := world s; trace := trace s |},
     Normal tt).

Definition modify_sources (f : EventSources -> EventSources) : M unit :=
  fun s =>
    ({| svc := svc s; sources := f (sources s); world := world s; trace := trace s |},
     Normal tt).

(** A call to caller-supplied code: it runs on the world and is logged. *)
Definition call (log : Completion JsValue -> Call) (f : Eff JsValue) : M JsValue :=
  fun s =>
    let (w, r) := f (world s) in
    ({| svc := svc s; sources := sources s; world := w; trace := trace s ++ [log r] |},
     r).

(** [Array.prototype.forEach]: a throwing callback ends the iteration. *)
Fixpoint forEach {A} (l : list A) (f : A -> M unit) : M unit :=
  match l with
  | [] => ret tt
  | x :: r => f x ;;; forEach r f
  end.

Definition set_currentDefinitions (d : option KeyboardControlDefinition)
  (k : KeyboardControlService) : KeyboardControlService :=
  {| _currentDefinitions := d;
     _activeDefinitions := _activeDefinitions k;
     _keyMappingFn := _keyMappingFn k;
     cesiumService := cesiumService k |}.

Definition set_keyMappingFn (f : KeyboardEvent -> JsString)
  (k : KeyboardControlService) : KeyboardControlService :=
  {| _currentDefinitions := _currentDefinitions k;
     _activeDefinitions := _activeDefinitions k;
     _keyMappingFn := f;
     cesiumService := cesiumService k |}.

(** [this._activeDefinitions[key] = ad]. *)
Definition set_active (key : JsString) (ad : ActiveDefinition)
  (k : KeyboardControlService) : KeyboardControlService :=
  {| _currentDefinitions := _currentDefinitions k;
     _activeDefinitions := obj_set key ad (_activeDefinitions k);
     _keyMappingFn := _keyMappingFn k;
     cesiumService := cesiumService k |}.

(** [defaultKeyMappingFn] (lines 186-188). *)
Definition defaultKeyMappingFn (keyEvent : KeyboardEvent) : JsString :=
  String_fromCharCode (keyCode keyEvent).

(** [registerEvents] (lines 316-328): the three listeners are added, inside
    or outside the Angular zone. *)
Definition registerEvents (outsideOfAngularZone : bool) : M unit :=
  modify_sources (fun src =>
    {| keydownListener :=
         match keydownListener src with
         | Some z => Some z
         | None => Some outsideOfAngularZone
         end;
       keyupListener :=
         match keyupListener src with
         | Some z => Some z
         | None => Some outsideOfAngularZone
         end;
       tickListeners := tickListeners src ++ [outsideOfAngularZone] |}).

(** [unregisterEvents] (lines 333-337). *)
Definition unregisterEvents : M unit :=
  modify_sources (fun src =>
    {| keydownListener := None;
       keyupListener := None;
       tickListeners := tl (tickListeners src) |}).

(** [removeKeyboardControls] (lines 169-172). *)
Definition removeKeyboardControls : M unit :=
  unregisterEvents ;;;
  modify_svc (set_currentDefinitions None).

(** The entry that [setKeyboardControls] writes for each key. *)
Definition released : ActiveDefinition :=
  {| keyboardEvent := None; state := NOT_PRESSED; activeAction := None |}.

(** [setKeyboardControls] (lines 143-164).  [definitions] is [None] for a
    falsy argument ([null], [undefined]), the case of [!definitions]; an
    object, even without keys, is [Some].  [keyMappingFn] is [None] when the
    argument is left out. *)
Definition setKeyboardControls (definitions : option KeyboardControlDefinition)
  (keyMappingFn : option (KeyboardEvent -> JsString))
  (outsideOfAngularZone : bool) : M unit :=
  match definitions with
  | None => removeKeyboardControls
  | Some defs =>
      cur <- gets _currentDefinitions ;;
      match cur with
      | None => registerEvents outsideOfAngularZone
      | Some _ => ret tt
      end ;;;
      modify_svc (set_currentDefinitions (Some defs)) ;;;
      modify_svc (set_keyMappingFn
                    match keyMappingFn with
                    | Some f => f
                    | None => defaultKeyMappingFn
                    end) ;;;
      forEach (Object_keys defs) (fun key => modify_svc (set_active key released))
  end.

(** [getAction] (lines 178-180): [this._currentDefinitions[char] || null];
    reading a property of [null] throws.  The lookup is that of the own
    properties: for a [char] in [inherited_name] that the set does not
    declare, the source finds the inherited member, a path that the model
    does not follow. *)
Definition getAction (char : JsString) : M (option KeyboardControlParams) :=
  cur <- gets _currentDefinitions ;;
  match cur with
  | None => throw TypeError
  | Some defs => ret (obj_get char defs)
  end.

(** [getParams] (lines 266-276). *)
Definition getParams (paramsDef : ParamsDef) (keyboardEvent : option KeyboardEvent)
  : M JsValue :=
  match paramsDef with
  | ParamsValue v => if falsy v then ret (JsObject []) else ret v
  | ParamsFunction f =>
      cs <- gets cesiumService ;;
      call (CallParams keyboardEvent) (f cs keyboardEvent)
  end.

(** [this._activeDefinitions[key]] followed by a field access, which throws
    on [undefined]; the lookup is that of the own properties, as in
    [getAction]. *)
Definition getActive (key : JsString) : M ActiveDefinition :=
  tbl <- gets _activeDefinitions ;;
  match obj_get key tbl with
  | None => throw TypeError
  | Some ad => ret ad
  end.

(** [handleKeydown] (lines 194-219).  Without [validation], [execute]
    keeps its initial value [true]. *)
Definition handleKeydown (e : KeyboardEvent) : M unit :=
  mapping <- gets _keyMappingFn ;;
  let char := mapping e in
  act <- getAction char ;;
  match act with
  | None => ret tt
  | Some a =>
      actionState <- getActive char ;;
      match state actionState with
      | IGNORED => ret tt
      | _ =>
          p <- getParams (params a) (Some e) ;;
          cs <- gets cesiumService ;;
          execute <- match validation a with
                     | Some v => call (CallValidation char p (Some e)) (v cs p (Some e))
                     | None => ret (JsBool true)
                     end ;;
          if is_true_literal execute then
            modify_svc (set_active char
              {| keyboardEvent := Some e; state := PRESSED; activeAction := Some a |})
          else ret tt
      end
  end.

(** [handleKeyup] (lines 225-240). *)
Definition handleKeyup (e : KeyboardEvent) : M unit :=
  mapping <- gets _keyMappingFn ;;
  let char := mapping e in
  act <- getAction char ;;
  match act with
  | None => ret tt
  | Some a =>
      modify_svc (set_active char
        {| keyboardEvent := Some e; state := NOT_PRESSED; activeAction := None |}) ;;;
      match done a with
      | Some d =>
          cs <- gets cesiumService ;;
          call (CallDone char (Some e)) (d cs (Some e)) ;;; ret tt
      | None => ret tt
      end
  end.

(** [executeAction] (lines 287-311). *)
Definition executeAction (execution : KeyboardControlParams) (key : JsString)
  (keyboardEvent : option KeyboardEvent) : M unit :=
  cur <- gets _currentDefinitions ;;
  match cur with
  | None => ret tt
  | Some _ =>
      p <- getParams (params execution) keyboardEvent ;;
      cs <- gets cesiumService ;;
      match action execution with
      | ActionId id =>
          match PREDEFINED_KEYBOARD_ACTIONS id with
          | Some predefinedAction =>
              call (CallPredefined id p keyboardEvent)
                   (predefinedAction cs p keyboardEvent) ;;; ret tt
          | None => ret tt
          end
      | ActionFn f =>
          shouldCancelEvent <- call (CallAction key p keyboardEvent) (f cs p keyboardEvent) ;;
          if is_false_literal shouldCancelEvent then
            modify_svc (set_active key
              {| keyboardEvent := None; state := IGNORED; activeAction := None |})
          else ret tt
      end
  end.

(** The body of the [forEach] of [handleTick] (lines 249-253). *)
Definition tickKey (key : JsString) : M unit :=
  actionState <- getActive key ;;
  match activeAction actionState, state actionState with
  | Some a, PRESSED => executeAction a key (keyboardEvent actionState)
  | _, _ => ret tt
  end.

(** [handleTick] (lines 245-255). *)
Definition handleTick : M unit :=
  activeKeys <- gets (fun k => Object_keys (_activeDefinitions k)) ;;
  forEach activeKeys tickKey.

(** *** Runs of the service *)

(** What can happen to the system: the two public methods, the three
    handlers, and the rest of the application acting on the world. *)
Inductive Input : Type :=
| SetKeyboardControls (definitions : option KeyboardControlDefinition)
    (keyMappingFn : option (KeyboardEvent -> JsString)) (outsideOfAngularZone : bool)
| RemoveKeyboardControls
| Keydown (e : KeyboardEvent)
| Keyup (e : KeyboardEvent)
| Tick
| External (f : World -> World).

Definition set_world (w : World) (s : Sys) : Sys :=
  {| svc := svc s; sources := sources s; world := w; trace := trace s |}.

(** One input; an exception thrown by a handler goes to the event loop, and
    the system carries on from the state the handler left. *)
Definition step (i : Input) (s : Sys) : Sys :=
  match i with
  | SetKeyboardControls d km z => fst (setKeyboardControls d km z s)
  | RemoveKeyboardControls => fst (removeKeyboardControls s)
  | Keydown e => fst (handleKeydown e s)
  | Keyup e => fst (handleKeyup e s)
  | Tick => fst (handleTick s)
  | External f => set_world (f (world s)) s
  end.

Fixpoint run (inputs : list Input) (s : Sys) : Sys :=
  match inputs with
  | [] => s
  | i :: r => run r (step i s)
  end.

(** The service as its field initialisers leave it. *)
Definition initial (cs : CesiumService) (w : World) : Sys :=
  {| svc := {| _currentDefinitions := None;
               _activeDefinitions := [];
               _keyMappingFn := defaultKeyMappingFn;
               cesiumService := cs |};
     sources := {| keydownListener := None; keyupListener := None; tickListeners := [] |};
     world := w;
     trace := [] |}.

Definition reachable (s : Sys) : Prop :=
  exists cs w inputs, s = run inputs (initial cs w).

(** *** Reading the log *)

(** The calls made between two states of one run. *)
Definition added_calls (before after : Sys) : list Call :=
  skipn (List.length (trace before)) (trace after).

(** A call of the action of [key] that returned the literal [false]. *)
Definition is_cancel (key : JsString) (c : Call) : bool :=
  match c with
  | CallAction k _ _ (Normal (JsBool false)) =>
      if JsString_eq_dec key k then true else false
  | _ => false
  end.

Definition cancelled_in (key : JsString) (calls : list Call) : bool :=
  existsb (is_cancel key) calls.

Definition is_action_call (key : JsString) (c : Call) : bool :=
  match c with
  | CallAction k _ _ _ => if JsString_eq_dec key k then true else false
  | _ => false
  end.

Definition is_done_call (key : JsString) (c : Call) : bool :=
  match c with
  | CallDone k _ _ => if JsString_eq_dec key k then true else false
  | _ => false
  end.

(** The entry that [executeAction] writes on cancellation. *)
Definition ignored : ActiveDefinition :=
  {| keyboardEvent := None; state := IGNORED; activeAction := None |}.

(** The entry that an accepted key-down writes. *)
Definition pressed (e : KeyboardEvent) (a : KeyboardControlParams) : ActiveDefinition :=
  {| keyboardEvent := Some e; state := PRESSED; activeAction := Some a |}.

(** The entry that a key-up writes. *)
Definition lifted (e : KeyboardEvent) : ActiveDefinition :=
  {| keyboardEvent := Some e; state := NOT_PRESSED; activeAction := None |}.

Definition populated {A} (o : option A) : bool :=
  match o with Some _ => true | None => false end.

(** What the entries of the table satisfy: the action is held exactly while
    [PRESSED], together with the key-down event; an [IGNORED] entry holds
    neither; a [NOT_PRESSED] entry holds no action (its event is [null]
    after an install and the key-up event after a key-up). *)
Definition snapshot_ok (ad : ActiveDefinition) : bool :=
  match state ad with
  | PRESSED => populated (activeAction ad) && populated (keyboardEvent ad)
  | IGNORED => negb (populated (activeAction ad)) && negb (populated (keyboardEvent ad))
  | NOT_PRESSED => negb (populated (activeAction ad))
  end.

(** The reading of the specification: action and event are held exactly in
    [PRESSED] and [IGNORED]. *)
Definition snapshot_as_specified (ad : ActiveDefinition) : bool :=
  match state ad with
  | PRESSED | IGNORED => populated (activeAction ad) && populated (keyboardEvent ad)
  | NOT_PRESSED =>
      negb (populated (activeAction ad)) && negb (populated (keyboardEvent ad))
  end.

(** Every entry of the table satisfies [snapshot_ok]. *)
Definition table_ok (s : Sys) : Prop :=
  forall key ad,
    obj_get key (_activeDefinitions (svc s)) = Some ad -> snapshot_ok ad = true.

(** The state of [key], if it has an entry. *)
Definition key_state (key : JsString) (s : Sys) : option KeyEventState :=
  option_map state (obj_get key (_activeDefinitions (svc s))).

(** Inputs that are neither a key-up of [key] nor a change of the
    definitions. *)
Definition holds_key (key : JsString) (mapping : KeyboardEvent -> JsString)
  (i : Input) : bool :=
  match i with
  | Keydown _ | Tick | External _ => true
  | Keyup e => if JsString_eq_dec (mapping e) key then false else true
  | SetKeyboardControls _ _ _ | RemoveKeyboardControls => false
  end.

(** *** Further readings of a state *)

Definition is_pressed (st : KeyEventState) : bool :=
  match st with PRESSED => true | _ => false end.

(** [execute === true], for the way the validation ended. *)
Definition accepted (r : Completion JsValue) : bool :=
  match r with Normal v => is_true_literal v | Abrupt _ => false end.

(** How a logged call ended. *)
Definition call_result (c : Call) : Completion JsValue :=
  match c with
  | CallParams _ r => r
  | CallValidation _ _ _ r => r
  | CallAction _ _ _ r => r
  | CallPredefined _ _ _ r => r
  | CallDone _ _ r => r
  end.

(** The listeners are those of one registration when there is a current
    set, and there is none otherwise. *)
Definition listeners_match (s : Sys) : bool :=
  match _currentDefinitions (svc s), keydownListener (sources s),
        keyupListener (sources s), tickListeners (sources s) with
  | None, None, None, [] => true
  | Some _, Some z1, Some z2, [z3] => Bool.eqb z1 z2 && Bool.eqb z2 z3
  | _, _, _, _ => false
  end.

(** No entry of the table is [PRESSED]. *)
Definition no_key_held (s : Sys) : bool :=
  forallb (fun kv => negb (is_pressed (state (snd kv)))) (_activeDefinitions (svc s)).

(** Inputs that cannot press [key]: ticks, key-ups, key-downs of other
    keys, and the rest of the application. *)
Definition idle_input (key : JsString) (mapping : KeyboardEvent -> JsString)
  (i : Input) : bool :=
  match i with
  | Keydown e => if JsString_eq_dec (mapping e) key then false else true
  | Keyup _ | Tick | External _ => true
  | SetKeyboardControls _ _ _ | RemoveKeyboardControls => false
  end.

(** *** Delivery of events *)

(** What [document] does with a key-down or key-up event: it calls the
    listener that [registerEvents] added, if it is still there. *)
Definition dispatch_keydown (e : KeyboardEvent) : M unit :=
  fun s =>
    match keydownListener (sources s) with
    | Some _ => handleKeydown e s
    | None => ret tt s
    end.

Definition dispatch_keyup (e : KeyboardEvent) : M unit :=
  fun s =>
    match keyupListener (sources s) with
    | Some _ => handleKeyup e s
    | None => ret tt s
    end.

(** What the clock does on a tick: it calls every listener of [onTick]. *)
Definition dispatch_tick : M unit :=
  fun s => forEach (tickListeners (sources s)) (fun _ => handleTick) s.

(** One input as the event sources deliver it; an exception goes to the
    event loop, as in [step]. *)
Definition deliver (i : Input) (s : Sys) : Sys :=
  match i with
  | Keydown e => fst (dispatch_keydown e s)
  | Keyup e => fst (dispatch_keyup e s)
  | Tick => fst (dispatch_tick s)
  | _ => step i s
  end.

Fixpoint deliver_all (inputs : list Input) (s : Sys) : Sys :=
  match inputs with
  | [] => s
  | i :: r => deliver_all r (deliver i s)
  end.

(** The keys of an iteration other than [key]. *)
Definition other_keys (key : JsString) (ks : list JsString) : list JsString :=
  filter (fun k => if JsString_eq_dec k key then false else true) ks.

(** The inputs that the event sources deliver. *)
Definition handler_input (i : Input) : bool :=
  match i with
  | Keydown _ | Keyup _ | Tick => true
  | _ => false
  end.

(** Every key that the current set declares has an entry. *)
Definition declared_have_entries (s : Sys) : Prop :=
  forall defs key b,
    _currentDefinitions (svc s) = Some defs -> obj_get key defs = Some b ->
    populated (obj_get key (_activeDefinitions (svc s))) = true.

End KeyboardControl.

Arguments ActionId {CesiumService KeyboardEvent World} id.
Arguments ActionFn {CesiumService KeyboardEvent World} f.
Arguments ParamsValue {CesiumService KeyboardEvent World} v.
Arguments ParamsFunction {CesiumService KeyboardEvent World} f.
Arguments CallParams {KeyboardEvent} e r.
Arguments CallValidation {KeyboardEvent} key p e r.
Arguments CallAction {KeyboardEvent} key p e r.
Arguments CallPredefined {KeyboardEvent} id p e r.
Arguments CallDone {KeyboardEvent} key e r.
Arguments ret {CesiumService KeyboardEvent World A} a _.
Arguments throw {CesiumService KeyboardEvent World A} x _.
Arguments bind {CesiumService KeyboardEvent World A B} m k _.
Arguments gets {CesiumService KeyboardEvent World A} f _.
Arguments modify_svc {CesiumService KeyboardEvent World} f _.
Arguments modify_sources {CesiumService KeyboardEvent World} f _.
Arguments call {CesiumService KeyboardEvent World} log f _.
Arguments forEach {CesiumService KeyboardEvent World A} l f _.
Arguments registerEvents {CesiumService KeyboardEvent World} outsideOfAngularZone _.
Arguments unregisterEvents {CesiumService KeyboardEvent World} _.
Arguments removeKeyboardControls {CesiumService KeyboardEvent World} _.
Arguments setKeyboardControls {CesiumService KeyboardEvent} keyCode {World}
  definitions keyMappingFn outsideOfAngularZone _.
Arguments getAction {CesiumService KeyboardEvent World} char _.
Arguments getParams {CesiumService KeyboardEvent World} paramsDef keyboardEvent _.
Arguments getActive {CesiumService KeyboardEvent World} key _.
Arguments handleKeydown {CesiumService KeyboardEvent World} e _.
Arguments handleKeyup {CesiumService KeyboardEvent World} e _.
Arguments executeAction {CesiumService KeyboardEvent World}
  PREDEFINED_KEYBOARD_ACTIONS execution key keyboardEvent _.
Arguments tickKey {CesiumService KeyboardEvent World} PREDEFINED_KEYBOARD_ACTIONS key _.
Arguments handleTick {CesiumService KeyboardEvent World} PREDEFINED_KEYBOARD_ACTIONS _.
Arguments released {CesiumService KeyboardEvent World}.
Arguments ignored {CesiumService KeyboardEvent World}.
Arguments SetKeyboardControls {CesiumService KeyboardEvent World}
  definitions keyMappingFn outsideOfAngularZone.
Arguments RemoveKeyboardControls {CesiumService KeyboardEvent World}.
Arguments Keydown {CesiumService KeyboardEvent World} e.
Arguments Keyup {CesiumService KeyboardEvent World} e.
Arguments Tick {CesiumService KeyboardEvent World}.
Arguments External {CesiumService KeyboardEvent World} f.
Arguments step {CesiumService KeyboardEvent} keyCode {World}
  PREDEFINED_KEYBOARD_ACTIONS i s.
Arguments run {CesiumService KeyboardEvent} keyCode {World}
  PREDEFINED_KEYBOARD_ACTIONS inputs s.
Arguments initial {CesiumService KeyboardEvent} keyCode {World} cs w.
Arguments reachable {CesiumService KeyboardEvent} keyCode {World}
  PREDEFINED_KEYBOARD_ACTIONS s.
Arguments holds_key {CesiumService KeyboardEvent World} key mapping i.
Arguments pressed {CesiumService KeyboardEvent World} e a.
Arguments lifted {CesiumService KeyboardEvent World} e.
Arguments snapshot_ok {CesiumService KeyboardEvent World} ad.
Arguments snapshot_as_specified {CesiumService KeyboardEvent World} ad.
Arguments table_ok {CesiumService KeyboardEvent World} s.
Arguments key_state {CesiumService KeyboardEvent World} key s.
Arguments added_calls {CesiumService KeyboardEvent World} before after.
Arguments is_cancel {KeyboardEvent} key c.
Arguments cancelled_in {KeyboardEvent} key calls.
Arguments is_action_call {KeyboardEvent} key c.
Arguments is_done_call {KeyboardEvent} key c.
Arguments call_result {KeyboardEvent} c.
Arguments listeners_match {CesiumService KeyboardEvent World} s.
Arguments no_key_held {CesiumService KeyboardEvent World} s.
Arguments idle_input {CesiumService KeyboardEvent World} key mapping i.
Arguments handler_input {CesiumService KeyboardEvent World} i.
Arguments dispatch_keydown {CesiumService KeyboardEvent World} e _.
Arguments dispatch_keyup {CesiumService KeyboardEvent World} e _.
Arguments dispatch_tick {CesiumService KeyboardEvent World} PREDEFINED_KEYBOARD_ACTIONS _.
Arguments deliver {CesiumService KeyboardEvent} keyCode {World}
  PREDEFINED_KEYBOARD_ACTIONS i s.
Arguments deliver_all {CesiumService KeyboardEvent} keyCode {World}
  PREDEFINED_KEYBOARD_ACTIONS inputs s.
Arguments declared_have_entries {CesiumService KeyboardEvent World} s.

(* ===================================================================== *)
(** ** A small application *)
(* ===================================================================== *)

(** The definitions of the scenarios used below: a controller without
    content, a world that counts the camera moves, and a table of
    predefined actions with the single entry 0. *)
Module Demo.

Inductive EventType : Type := keydown | keyup.

Record DomEvent : Type := { type : EventType; code : Z }.

Definition Controller : Type := unit.
Definition Camera : Type := Z.

Definition Binding : Type := KeyboardControlParams Controller DomEvent Camera.
Definition System : Type := Sys Controller DomEvent Camera.

Definition press (c : Z) : DomEvent := {| type := keydown; code := c |}.
Definition release (c : Z) : DomEvent := {| type := keyup; code := c |}.

(** Action callbacks: one moves the camera and returns nothing, one asks
    for cancellation, one throws. *)
Definition move : KeyboardControlActionFn Controller DomEvent Camera :=
  fun _ _ _ w => ((w + 1)%Z, Normal JsUndefined).
Definition cancel : KeyboardControlActionFn Controller DomEvent Camera :=
  fun _ _ _ w => (w, Normal (JsBool false)).
Definition failing : KeyboardControlActionFn Controller DomEvent Camera :=
  fun _ _ _ w => (w, Abrupt (Thrown (JsStr (js "boom")))).

Definition onDone : KeyboardControlDoneFn Controller DomEvent Camera :=
  fun _ _ w => (w, Normal JsUndefined).

(** A parameter function that reports the moves made so far. *)
Definition moves_so_far : ParamsFn Controller DomEvent Camera :=
  fun _ _ w => (w, Normal (JsObject [(js "moves", JsNumber w)])).

Definition predefined (id : Z) : option (KeyboardControlActionFn Controller DomEvent Camera) :=
  if (id =? 0)%Z then Some move else None.

Definition binding (a : ActionDef Controller DomEvent Camera)
  (d : option (KeyboardControlDoneFn Controller DomEvent Camera)) : Binding :=
  {| action := a; validation := None; params := ParamsValue JsUndefined; done := d |}.

Definition key_A : JsString := js "A".
Definition key_B : JsString := js "B".
Definition key_S : JsString := js "S".
Definition key_W : JsString := js "W".

(** [{W: {action: 0}}]. *)
Definition bW : Binding := binding (ActionId 0) None.
Definition defs_W : KeyboardControlDefinition Controller DomEvent Camera := [(key_W, bW)].

(** [{S: {action: cancel, done: onDone}}]. *)
Definition bS : Binding := binding (ActionFn cancel) (Some onDone).
Definition defs_S : KeyboardControlDefinition Controller DomEvent Camera := [(key_S, bS)].

(** [{A: {action: failing}, B: {action: move}}]. *)
Definition bA : Binding := binding (ActionFn failing) None.
Definition bB : Binding := binding (ActionFn move) None.
Definition defs_AB : KeyboardControlDefinition Controller DomEvent Camera :=
  [(key_A, bA); (key_B, bB)].

(** [{W: {action: move, params: moves_so_far}}]. *)
Definition bCount : Binding :=
  {| action := ActionFn move; validation := None;
     params := ParamsFunction moves_so_far; done := None |}.
Definition defs_count : KeyboardControlDefinition Controller DomEvent Camera :=
  [(key_W, bCount)].

Definition start : System := initial code tt 0%Z.

Definition go (inputs : list (Input Controller DomEvent Camera)) (s : System) : System :=
  run code predefined inputs s.

Definition install (d : KeyboardControlDefinition Controller DomEvent Camera)
  : Input Controller DomEvent Camera :=
  SetKeyboardControls (Some d) None false.

(** [S] is installed and held. *)
Definition s_pressed : System := go [install defs_S; Keydown (press 83)] start.

(** [S] is held and its action has cancelled during a tick. *)
Definition s_ignored : System := go [Tick] s_pressed.

(** [W] is held under [defs_W], then [defs_S] is installed. *)
Definition s_reinstalled : System :=
  go [install defs_W; Keydown (press 87); install defs_S] start.

(** [A] and [B] are both held. *)
Definition s_two_held : System :=
  go [install defs_AB; Keydown (press 65); Keydown (press 66)] start.

(** [W] is held with a parameter function. *)
Definition s_counting : System := go [install defs_count; Keydown (press 87)] start.

(** [W] is held under [defs_W]. *)
Definition s_forward : System := go [install defs_W; Keydown (press 87)] start.

(** A validation that refuses every key-down, and one that throws. *)
Definition refuse : KeyboardControlValidationFn Controller DomEvent Camera :=
  fun _ _ _ w => (w, Normal (JsBool false)).
Definition broken : KeyboardControlValidationFn Controller DomEvent Camera :=
  fun _ _ _ w => (w, Abrupt (Thrown (JsStr (js "boom")))).

(** [{A: {action: move, validation: refuse, params: moves_so_far},
      B: {action: move, validation: broken}}]. *)
Definition bRefused : Binding :=
  {| action := ActionFn move; validation := Some refuse;
     params := ParamsFunction moves_so_far; done := None |}.
Definition bBroken : Binding :=
  {| action := ActionFn move; validation := Some broken;
     params := ParamsValue JsUndefined; done := None |}.
Definition defs_guarded : KeyboardControlDefinition Controller DomEvent Camera :=
  [(key_A, bRefused); (key_B, bBroken)].

(** [defs_guarded] is installed, no key is held. *)
Definition s_guarded : System := go [install defs_guarded] start.

(** The exception thrown by [failing]. *)
Definition boom : Exn := Thrown (JsStr (js "boom")).

(** The parameters that [moves_so_far] gives after [n] moves. *)
Definition moves (n : Z) : JsValue := JsObject [(js "moves", JsNumber n)].

End Demo.

(* ===================================================================== *)
(** ** Tactics *)
(* ===================================================================== *)

(** Case analysis on the scrutinee of an innermost [match] of the goal. *)
Ltac break_match :=
  match goal with
  | |- context [match ?x with _ => _ end] =>
      lazymatch x with
      | context [match _ with _ => _ end] => fail
      | _ => destruct x eqn:?
      end
  end.

(** Puts a log of the shape [(t ++ a) ++ b], [t ++ a] or [t] in the form
    [t ++ l]. *)
Ltac log_suffix :=
  first [ reflexivity
        | symmetry; apply app_nil_r
        | symmetry; apply app_assoc
        | rewrite <- !app_assoc; reflexivity ].

(** Case analysis on a value tested against a literal. *)
Ltac literal_cases :=
  repeat match goal with
    | H : is_false_literal ?v = _ |- _ =>
        destruct v as [| |[]| | |]; simpl in H; try discriminate H; clear H
    | H : is_true_literal ?v = _ |- _ =>
        destruct v as [| |[]| | |]; simpl in H; try discriminate H; clear H
    end.

(** Case analysis on the comparisons of keys in the goal. *)
Ltac key_cases :=
  repeat match goal with
    | |- context [JsString_eq_dec ?a ?b] => destruct (JsString_eq_dec a b); simpl
    end.

(* ===================================================================== *)
(** ** Lemmas on objects *)
(* ===================================================================== *)

Unset Implicit Arguments.

Section Objects.

Context {V : Type}.
Implicit Types (o : JsObj V) (k : JsString) (v : V).

Lemma obj_get_set_same o k v : obj_get k (obj_set k v o) = Some v.
Proof.
  induction o as [|[k' v'] r IH]; simpl.
  - destruct (JsString_eq_dec k k); congruence.
  - destruct (JsString_eq_dec k k') as [->|Hne]; simpl.
    + destruct (JsString_eq_dec k' k'); congruence.
    + destruct (JsString_eq_dec k k'); [contradiction|exact IH].
Qed.

Lemma obj_get_set_other o k k' v :
  k <> k' -> obj_get k' (obj_set k v o) = obj_get k' o.
Proof.
  intros Hne. induction o as [|[k0 v0] r IH]; simpl.
  - destruct (JsString_eq_dec k' k); congruence.
  - destruct (JsString_eq_dec k k0) as [->|Hk]; simpl.
    + destruct (JsString_eq_dec k' k0); congruence.
    + destruct (JsString_eq_dec k' k0); [reflexivity|exact IH].
Qed.

Lemma obj_get_set o k k' v :
  obj_get k' (obj_set k v o) = if JsString_eq_dec k' k then Some v else obj_get k' o.
Proof.
  destruct (JsString_eq_dec k' k) as [->|Hne].
  - apply obj_get_set_same.
  - apply obj_get_set_other. congruence.
Qed.

Lemma obj_get_some_in o k v : obj_get k o = Some v -> In k (map fst o).
Proof.
  induction o as [|[k' v'] r IH]; simpl; [discriminate|].
  destruct (JsString_eq_dec k k') as [->|Hne]; auto.
Qed.

Lemma obj_get_in o k : In k (map fst o) -> exists v, obj_get k o = Some v.
Proof.
  induction o as [|[k' v'] r IH]; simpl; [tauto|].
  intros [<-|Hin].
  - destruct (JsString_eq_dec k' k'); [eauto|congruence].
  - destruct (JsString_eq_dec k k'); eauto.
Qed.

(** Setting a property keeps the names and their order, or adds the name
    at the end. *)
Lemma obj_set_keys o k v :
  map fst (obj_set k v o) =
  if in_dec JsString_eq_dec k (map fst o) then map fst o else map fst o ++ [k].
Proof.
  induction o as [|[k' v'] r IH]; simpl; [reflexivity|].
  destruct (JsString_eq_dec k k') as [->|Hne]; simpl.
  - destruct (JsString_eq_dec k' k'); congruence.
  - destruct (JsString_eq_dec k' k); [congruence|].
    rewrite IH. destruct (in_dec JsString_eq_dec k (map fst r)); reflexivity.
Qed.

Lemma obj_set_NoDup o k v : NoDup (map fst o) -> NoDup (map fst (obj_set k v o)).
Proof.
  intros Hnd. rewrite obj_set_keys.
  destruct (in_dec JsString_eq_dec k (map fst o)) as [Hin|Hnin]; [exact Hnd|].
  apply NoDup_app; [exact Hnd|repeat constructor; simpl; tauto|].
  intros x Hx [<-|[]]. contradiction.
Qed.

End Objects.

Lemma insert_index_perm x l : Permutation (insert_index x l) (x :: l).
Proof.
  induction l as [|y r IH]; simpl; [reflexivity|].
  destruct (fst x <=? fst y)%N; [reflexivity|].
  rewrite IH. apply perm_swap.
Qed.

Lemma sort_index_perm l : Permutation (sort_index l) l.
Proof.
  induction l as [|x r IH]; simpl; [reflexivity|].
  rewrite insert_index_perm. now constructor.
Qed.

Lemma index_keys_filter ks : map snd (index_keys ks) = filter is_index ks.
Proof.
  induction ks as [|k r IH]; simpl; [reflexivity|].
  rewrite <- IH. unfold is_index. now destruct (array_index k).
Qed.

Lemma filter_split_perm {A} (f : A -> bool) (l : list A) :
  Permutation (filter f l ++ filter (fun x => negb (f x)) l) l.
Proof.
  induction l as [|x r IH]; simpl; [reflexivity|].
  destruct (f x); simpl.
  - now constructor.
  - rewrite <- Permutation_middle. now constructor.
Qed.

(** [Object.keys] lists every own property name once. *)
Lemma Object_keys_perm {V} (o : JsObj V) : Permutation (Object_keys o) (map fst o).
Proof.
  unfold Object_keys.
  rewrite (Permutation_map snd (sort_index_perm _)), index_keys_filter.
  apply filter_split_perm.
Qed.

Lemma Object_keys_In {V} (o : JsObj V) k : In k (Object_keys o) <-> In k (map fst o).
Proof.
  split; apply Permutation_in; [|symmetry]; apply Object_keys_perm.
Qed.

Lemma Object_keys_get {V} (o : JsObj V) k :
  In k (Object_keys o) -> exists v, obj_get k o = Some v.
Proof. intros H. apply obj_get_in, Object_keys_In, H. Qed.

(* ===================================================================== *)
(** ** The effect of each method *)
(* ===================================================================== *)

Lemma skipn_length_app {A} (a l : list A) : skipn (List.length a) (a ++ l) = l.
Proof. induction a; simpl; auto. Qed.

Section Properties.

Variables CesiumService KeyboardEvent World : Type.
Variable keyCode : KeyboardEvent -> Z.
Variable PREDEFINED_KEYBOARD_ACTIONS :
  Z -> option (KeyboardControlActionFn CesiumService KeyboardEvent World).

Local Abbreviation Sys := (Sys CesiumService KeyboardEvent World).
Local Abbreviation Call := (Call KeyboardEvent).
Local Abbreviation table s := (_activeDefinitions (svc s)).

Implicit Types (s : Sys) (key k : JsString) (c : Call) (l : list Call).

Lemma added_calls_app s s' l : trace s' = trace s ++ l -> added_calls s s' = l.
Proof. unfold added_calls. intros ->. apply skipn_length_app. Qed.

Lemma cancelled_in_app key l1 l2 :
  cancelled_in key (l1 ++ l2) = cancelled_in key l1 || cancelled_in key l2.
Proof. apply existsb_app. Qed.

Lemma is_cancel_action key c : is_cancel key c = true -> is_action_call key c = true.
Proof.
  destruct c as [| | k p e r | |]; simpl; try discriminate.
  destruct r as [[]|]; try discriminate. destruct b; try discriminate.
  now destruct (JsString_eq_dec key k).
Qed.

Lemma no_action_no_cancel key l :
  existsb (is_action_call key) l = false -> cancelled_in key l = false.
Proof.
  unfold cancelled_in. induction l as [|c r IH]; simpl; [reflexivity|].
  intros H. apply orb_false_iff in H as [Hc Hr].
  rewrite (IH Hr), orb_false_r.
  destruct (is_cancel key c) eqn:E; [|reflexivity].
  apply is_cancel_action in E. congruence.
Qed.


(** What one visit of [handleTick]'s loop does: it logs some calls, among
    them action calls of the visited key only, and none when the key is not
    [PRESSED]; the entry of a key becomes [ignored] when its action returned
    [false], and no entry changes otherwise; nothing else of the service
    changes. *)
Lemma tickKey_effect k s :
  let s' := fst (tickKey PREDEFINED_KEYBOARD_ACTIONS k s) in
  exists l,
    trace s' = trace s ++ l /\
    (forall key, key <> k -> existsb (is_action_call key) l = false) /\
    (forall ad, obj_get k (table s) = Some ad -> state ad <> PRESSED -> l = []) /\
    (forall key, obj_get key (table s') =
                 if cancelled_in key l then Some ignored else obj_get key (table s)) /\
    _currentDefinitions (svc s') = _currentDefinitions (svc s) /\
    _keyMappingFn (svc s') = _keyMappingFn (svc s) /\
    cesiumService (svc s') = cesiumService (svc s) /\
    sources s' = sources s.
Proof.
  destruct s as [[cur tbl km cs] src w tr].
  unfold tickKey, executeAction, getActive, getParams, bind, gets, call, ret, throw,
    modify_svc; simpl.
  repeat (break_match; simpl in * ).
  all: eexists; split; [log_suffix|].
  all: literal_cases; simpl.
  all: repeat split; intros; try reflexivity; try rewrite obj_get_set.
  all: key_cases; try congruence; try reflexivity.
Qed.

(** The same for a whole iteration over [ks]. *)
Lemma forEach_tickKey_effect ks s :
  let s' := fst (forEach ks (tickKey PREDEFINED_KEYBOARD_ACTIONS) s) in
  exists l,
    trace s' = trace s ++ l /\
    (forall key, ~ In key ks -> existsb (is_action_call key) l = false) /\
    (forall key, obj_get key (table s') =
                 if cancelled_in key l then Some ignored else obj_get key (table s)) /\
    _currentDefinitions (svc s') = _currentDefinitions (svc s) /\
    _keyMappingFn (svc s') = _keyMappingFn (svc s) /\
    cesiumService (svc s') = cesiumService (svc s) /\
    sources s' = sources s.
Proof.
  revert s. induction ks as [|k r IH]; intros s; simpl.
  - exists []. rewrite app_nil_r. repeat split; reflexivity.
  - unfold bind.
    destruct (tickKey_effect k s) as (l1 & Ht & Hact & _ & Htbl & Hc & Hm & Hcs & Hsrc).
    destruct (tickKey PREDEFINED_KEYBOARD_ACTIONS k s) as [s1 [[]|x]]; simpl in *.
    + destruct (IH s1) as (l2 & Ht2 & Hact2 & Htbl2 & Hc2 & Hm2 & Hcs2 & Hsrc2).
      exists (l1 ++ l2). repeat split; try congruence.
      * rewrite Ht2, Ht. symmetry. apply app_assoc.
      * intros key Hnin. rewrite existsb_app, Hact, Hact2; auto.
      * intros key. rewrite Htbl2, Htbl, cancelled_in_app.
        destruct (cancelled_in key l1), (cancelled_in key l2); reflexivity.
    + exists l1. repeat split; auto.
Qed.

Lemma handleTick_effect s :
  let s' := fst (handleTick PREDEFINED_KEYBOARD_ACTIONS s) in
  trace s' = trace s ++ added_calls s s' /\
  (forall key, obj_get key (table s') =
               if cancelled_in key (added_calls s s') then Some ignored
               else obj_get key (table s)) /\
  _currentDefinitions (svc s') = _currentDefinitions (svc s) /\
  _keyMappingFn (svc s') = _keyMappingFn (svc s) /\
  cesiumService (svc s') = cesiumService (svc s) /\
  sources s' = sources s.
Proof.
  unfold handleTick, bind, gets; simpl.
  destruct (forEach_tickKey_effect (Object_keys (table s)) s)
    as (l & Ht & _ & Htbl & Hrest).
  rewrite (added_calls_app _ _ _ Ht). auto.
Qed.

(** A key that is not [PRESSED] sees no call of its action during an
    iteration, and keeps its entry. *)
Lemma forEach_tickKey_idle ks s key ad :
  obj_get key (table s) = Some ad -> state ad <> PRESSED ->
  let s' := fst (forEach ks (tickKey PREDEFINED_KEYBOARD_ACTIONS) s) in
  obj_get key (table s') = Some ad /\
  existsb (is_action_call key) (added_calls s s') = false.
Proof.
  revert s. induction ks as [|k r IH]; intros s Hget Hst; simpl.
  - split; [exact Hget|]. unfold added_calls. now rewrite skipn_all.
  - unfold bind.
    destruct (tickKey_effect k s) as (l1 & Ht & Hact & Hidle & Htbl & _).
    assert (Hl1 : existsb (is_action_call key) l1 = false).
    { destruct (JsString_eq_dec key k) as [->|Hne]; [|auto].
      now rewrite (Hidle ad Hget Hst). }
    assert (Hget1 : obj_get key
              (table (fst (tickKey PREDEFINED_KEYBOARD_ACTIONS k s))) = Some ad).
    { rewrite Htbl, (no_action_no_cancel _ _ Hl1). exact Hget. }
    destruct (tickKey PREDEFINED_KEYBOARD_ACTIONS k s) as [s1 [[]|x]]; simpl in *.
    + destruct (IH s1 Hget1 Hst) as [Hg Hn].
      destruct (forEach_tickKey_effect r s1) as (l2 & Ht2 & _).
      split; [exact Hg|].
      rewrite (added_calls_app _ _ _ Ht2) in Hn.
      rewrite (added_calls_app s _ (l1 ++ l2)).
      * now rewrite existsb_app, Hl1, Hn.
      * rewrite Ht2, Ht. symmetry. apply app_assoc.
    + split; [exact Hget1|]. now rewrite (added_calls_app _ _ _ Ht).
Qed.

(** *** Key-down, key-up, and the two public methods *)

Lemma handleKeydown_effect e s :
  let s' := fst (handleKeydown e s) in
  let char := _keyMappingFn (svc s) e in
  exists l,
    trace s' = trace s ++ l /\
    (forall key, existsb (is_action_call key) l = false) /\
    (forall key, key <> char -> obj_get key (table s') = obj_get key (table s)) /\
    (obj_get char (table s') = obj_get char (table s) \/
     exists a, obj_get char (table s') = Some (pressed e a)) /\
    (forall ad, obj_get char (table s) = Some ad -> state ad = IGNORED ->
                obj_get char (table s') = Some ad) /\
    _currentDefinitions (svc s') = _currentDefinitions (svc s) /\
    _keyMappingFn (svc s') = _keyMappingFn (svc s) /\
    cesiumService (svc s') = cesiumService (svc s) /\
    sources s' = sources s.
Proof.
  destruct s as [[cur tbl km cs] src w tr].
  unfold handleKeydown, getAction, getActive, getParams, bind, gets, call, ret, throw,
    modify_svc; simpl.
  repeat (break_match; simpl in * ).
  all: eexists; split; [log_suffix|].
  all: literal_cases; simpl.
  all: repeat split; intros; try reflexivity; try rewrite obj_get_set.
  all: key_cases; try congruence; try reflexivity; auto.
  all: try (right; eexists; reflexivity).
Qed.

Lemma handleKeyup_effect e s :
  let s' := fst (handleKeyup e s) in
  let char := _keyMappingFn (svc s) e in
  exists l,
    trace s' = trace s ++ l /\
    (forall key, existsb (is_action_call key) l = false) /\
    (forall key, key <> char -> obj_get key (table s') = obj_get key (table s)) /\
    (obj_get char (table s') = obj_get char (table s) \/
     obj_get char (table s') = Some (lifted e)) /\
    _currentDefinitions (svc s') = _currentDefinitions (svc s) /\
    _keyMappingFn (svc s') = _keyMappingFn (svc s) /\
    cesiumService (svc s') = cesiumService (svc s) /\
    sources s' = sources s.
Proof.
  destruct s as [[cur tbl km cs] src w tr].
  unfold handleKeyup, getAction, bind, gets, call, ret, throw, modify_svc; simpl.
  repeat (break_match; simpl in * ).
  all: eexists; split; [log_suffix|].
  all: repeat split; intros; try reflexivity; try rewrite obj_get_set.
  all: key_cases; try congruence; try reflexivity; auto.
Qed.

(** The loop of [setKeyboardControls]: every listed key gets a fresh entry,
    the other entries stay. *)
Lemma forEach_reset ks s :
  let r := forEach ks (fun key => modify_svc (set_active key released)) s in
  snd r = Normal tt /\
  trace (fst r) = trace s /\ world (fst r) = world s /\ sources (fst r) = sources s /\
  _currentDefinitions (svc (fst r)) = _currentDefinitions (svc s) /\
  _keyMappingFn (svc (fst r)) = _keyMappingFn (svc s) /\
  cesiumService (svc (fst r)) = cesiumService (svc s) /\
  (forall key, obj_get key (table (fst r)) =
               if in_dec JsString_eq_dec key ks then Some released
               else obj_get key (table s)).
Proof.
  revert s. induction ks as [|k r IH]; intros s.
  - simpl. repeat split; reflexivity.
  - cbn [forEach]. unfold bind at 1. unfold modify_svc at 1.
    destruct (IH {| svc := set_active k released (svc s); sources := sources s;
                    world := world s; trace := trace s |})
      as (Hn & Ht & Hw & Hs & Hc & Hm & Hcs & Htbl).
    repeat split; try assumption.
    intros key. rewrite Htbl. cbn [svc set_active _activeDefinitions].
    rewrite obj_get_set. simpl.
    destruct (in_dec JsString_eq_dec key r) as [Hin|Hnin].
    + destruct (JsString_eq_dec k key); reflexivity.
    + destruct (JsString_eq_dec k key) as [->|Hne];
        destruct (JsString_eq_dec key key) as [|Hk]; try congruence;
        destruct (JsString_eq_dec key k); congruence.
Qed.

Lemma removeKeyboardControls_effect s :
  let r := removeKeyboardControls s in
  snd r = Normal tt /\
  trace (fst r) = trace s /\ world (fst r) = world s /\
  table (fst r) = table s /\
  _currentDefinitions (svc (fst r)) = None /\
  _keyMappingFn (svc (fst r)) = _keyMappingFn (svc s) /\
  cesiumService (svc (fst r)) = cesiumService (svc s) /\
  keydownListener (sources (fst r)) = None /\
  keyupListener (sources (fst r)) = None /\
  tickListeners (sources (fst r)) = tl (tickListeners (sources s)).
Proof. repeat split. Qed.

Lemma in_dec_Object_keys {V A} (o : JsObj V) key (x y : A) :
  (if in_dec JsString_eq_dec key (Object_keys o) then x else y) =
  (if in_dec JsString_eq_dec key (map fst o) then x else y).
Proof.
  destruct (in_dec JsString_eq_dec key (Object_keys o)) as [H|H];
    destruct (in_dec JsString_eq_dec key (map fst o)) as [H'|H']; try reflexivity;
    rewrite Object_keys_In in H; contradiction.
Qed.

Lemma setKeyboardControls_effect defs km zone s :
  let r := setKeyboardControls keyCode (Some defs) km zone s in
  snd r = Normal tt /\
  trace (fst r) = trace s /\ world (fst r) = world s /\
  _currentDefinitions (svc (fst r)) = Some defs /\
  _keyMappingFn (svc (fst r)) =
    match km with Some f => f | None => defaultKeyMappingFn keyCode end /\
  cesiumService (svc (fst r)) = cesiumService (svc s) /\
  (forall key, obj_get key (table (fst r)) =
               if in_dec JsString_eq_dec key (map fst defs) then Some released
               else obj_get key (table s)).
Proof.
  unfold setKeyboardControls.
  set (loop := forEach (Object_keys defs) _).
  unfold bind, gets. cbn [fst snd].
  destruct (_currentDefinitions (svc s)); cbn -[loop].
  all: match goal with
       | |- context [trace (fst (_ ?x))] =>
           destruct (forEach_reset (Object_keys defs) x)
             as (Hn & Ht & Hw & Hs & Hc & Hm & Hcs & Htbl)
       end.
  all: subst loop; repeat split; try assumption.
  all: intros key; rewrite Htbl; apply in_dec_Object_keys.
Qed.

(* ===================================================================== *)
(** ** Invariants of the reachable states *)
(* ===================================================================== *)

Lemma table_ok_step s s' :
  (forall key, obj_get key (table s') = obj_get key (table s) \/
               exists ad, obj_get key (table s') = Some ad /\ snapshot_ok ad = true) ->
  table_ok s -> table_ok s'.
Proof.
  intros Hstep Hok key ad Hget.
  destruct (Hstep key) as [Heq|(ad' & Heq & Had)].
  - apply (Hok key). congruence.
  - congruence.
Qed.

Lemma step_table_ok i s :
  table_ok s -> table_ok (step keyCode PREDEFINED_KEYBOARD_ACTIONS i s).
Proof.
  apply table_ok_step. intros key.
  destruct i as [[defs|] km zone| |e|e| |f]; cbn [step].
  - destruct (setKeyboardControls_effect defs km zone s) as (_ & _ & _ & _ & _ & _ & H).
    rewrite H. destruct (in_dec JsString_eq_dec key (map fst defs)); eauto.
  - now left.
  - now left.
  - destruct (handleKeydown_effect e s) as (l & _ & _ & Hother & Hchar & _).
    destruct (JsString_eq_dec key (_keyMappingFn (svc s) e)) as [->|Hne]; [|auto].
    destruct Hchar as [H|[a H]]; eauto.
  - destruct (handleKeyup_effect e s) as (l & _ & _ & Hother & Hchar & _).
    destruct (JsString_eq_dec key (_keyMappingFn (svc s) e)) as [->|Hne]; [|auto].
    destruct Hchar as [H|H]; eauto.
  - destruct (handleTick_effect s) as (_ & H & _).
    rewrite H. destruct (cancelled_in key _); eauto.
  - now left.
Qed.

Lemma run_table_ok inputs s :
  table_ok s -> table_ok (run keyCode PREDEFINED_KEYBOARD_ACTIONS inputs s).
Proof.
  revert s. induction inputs as [|i r IH]; intros s Hok; simpl; [exact Hok|].
  apply IH, step_table_ok, Hok.
Qed.

Lemma reachable_table_ok s :
  reachable keyCode PREDEFINED_KEYBOARD_ACTIONS s -> table_ok s.
Proof.
  intros (cs & w & inputs & ->). apply run_table_ok.
  intros key ad. discriminate.
Qed.

(** The table never holds a name twice. *)
Lemma forEach_reset_NoDup ks s :
  NoDup (map fst (table s)) ->
  NoDup (map fst (table (fst (forEach ks
                                (fun key => modify_svc (set_active key released)) s)))).
Proof.
  revert s. induction ks as [|k r IH]; intros s Hnd; [exact Hnd|].
  cbn [forEach]. unfold bind at 1. unfold modify_svc at 1.
  apply IH. cbn [svc set_active _activeDefinitions]. now apply obj_set_NoDup.
Qed.

Lemma tickKey_NoDup k s :
  NoDup (map fst (table s)) ->
  NoDup (map fst (table (fst (tickKey PREDEFINED_KEYBOARD_ACTIONS k s)))).
Proof.
  destruct s as [[cur tbl km cs] src w tr].
  unfold tickKey, executeAction, getActive, getParams, bind, gets, call, ret, throw,
    modify_svc; simpl.
  repeat (break_match; simpl in * ); auto using obj_set_NoDup.
Qed.

Lemma forEach_tickKey_NoDup ks s :
  NoDup (map fst (table s)) ->
  NoDup (map fst (table (fst (forEach ks (tickKey PREDEFINED_KEYBOARD_ACTIONS) s)))).
Proof.
  revert s. induction ks as [|k r IH]; intros s Hnd; [exact Hnd|].
  cbn [forEach]. unfold bind.
  pose proof (tickKey_NoDup k s Hnd) as H1.
  destruct (tickKey PREDEFINED_KEYBOARD_ACTIONS k s) as [s1 [[]|x]]; simpl in *; auto.
Qed.

Lemma setKeyboardControls_NoDup defs km zone s :
  NoDup (map fst (table s)) ->
  NoDup (map fst (table (fst (setKeyboardControls keyCode (Some defs) km zone s)))).
Proof.
  intros Hnd. unfold setKeyboardControls, bind, gets. cbn [fst snd].
  destruct (_currentDefinitions (svc s)); apply forEach_reset_NoDup; exact Hnd.
Qed.

Lemma step_table_NoDup i s :
  NoDup (map fst (table s)) ->
  NoDup (map fst (table (step keyCode PREDEFINED_KEYBOARD_ACTIONS i s))).
Proof.
  destruct i as [[defs|] km zone| |e|e| |f]; cbn [step]; intros Hnd.
  - apply setKeyboardControls_NoDup, Hnd.
  - exact Hnd.
  - exact Hnd.
  - revert Hnd. destruct s as [[cur tbl km cs] src w tr].
    unfold handleKeydown, getAction, getActive, getParams, bind, gets, call, ret, throw,
      modify_svc; simpl.
    repeat (break_match; simpl in * ); auto using obj_set_NoDup.
  - revert Hnd. destruct s as [[cur tbl km cs] src w tr].
    unfold handleKeyup, getAction, bind, gets, call, ret, throw, modify_svc; simpl.
    repeat (break_match; simpl in * ); auto using obj_set_NoDup.
  - apply forEach_tickKey_NoDup, Hnd.
  - exact Hnd.
Qed.

Lemma reachable_table_NoDup s :
  reachable keyCode PREDEFINED_KEYBOARD_ACTIONS s -> NoDup (map fst (table s)).
Proof.
  intros (cs & w & inputs & ->).
  assert (Hnd : NoDup (map fst (table (initial keyCode cs w)))) by constructor.
  revert Hnd. generalize (initial keyCode cs w).
  induction inputs as [|i r IH]; intros s0 Hnd; simpl; [exact Hnd|].
  apply IH, step_table_NoDup, Hnd.
Qed.

(* ===================================================================== *)
(** ** Properties of the service *)
(* ===================================================================== *)

(** *** Key-up *)

(** C1 (as amended).  A key-up whose key has a definition in the current
    set writes a [NOT_PRESSED] entry without action for that key and, when
    the definition declares [done], calls it exactly once with the
    controller and the key-up event; this holds whatever the entry of the
    key was before ([PRESSED], [IGNORED] or [NOT_PRESSED]). *)
Theorem handleKeyup_invokes_done e s defs b :
  _currentDefinitions (svc s) = Some defs ->
  obj_get (_keyMappingFn (svc s) e) defs = Some b ->
  let char := _keyMappingFn (svc s) e in
  let s' := fst (handleKeyup e s) in
  obj_get char (table s') = Some (lifted e) /\
  added_calls s s' =
    match done b with
    | Some d =>
        [CallDone char (Some e) (snd (d (cesiumService (svc s)) (Some e) (world s)))]
    | None => []
    end /\
  world s' =
    match done b with
    | Some d => fst (d (cesiumService (svc s)) (Some e) (world s))
    | None => world s
    end.
Proof.
  destruct s as [[cur tbl km cs] src w tr]. simpl. intros -> Hb.
  unfold handleKeyup, getAction, bind, gets, call, ret, modify_svc, added_calls; simpl.
  rewrite Hb. simpl.
  destruct (done b) as [d|]; simpl.
  - destruct (d cs (Some e) w) as [w' [v|x]]; simpl;
      rewrite obj_get_set_same, skipn_length_app; auto.
  - rewrite obj_get_set_same, skipn_all. auto.
Qed.

(** *** Installing a set *)

(** C2 (as amended).  After an install of a set, the set is the current
    one and every key it declares has an entry in [NOT_PRESSED] with
    neither action nor event, whatever entry the key had before; the table
    holds that key once (as it holds every name once in the reachable
    states, see [reachable_table_NoDup]). *)
Theorem setKeyboardControls_resets_declared_keys defs km zone s key b :
  obj_get key defs = Some b ->
  NoDup (map fst (table s)) ->
  let s' := fst (setKeyboardControls keyCode (Some defs) km zone s) in
  _currentDefinitions (svc s') = Some defs /\
  obj_get key (table s') = Some released /\
  count_occ JsString_eq_dec (map fst (table s')) key = 1.
Proof.
  intros Hb Hnd.
  destruct (setKeyboardControls_effect defs km zone s) as (_ & _ & _ & Hc & _ & _ & H).
  assert (Hget : obj_get key
                   (table (fst (setKeyboardControls keyCode (Some defs) km zone s)))
                 = Some released).
  { rewrite H.
    destruct (in_dec JsString_eq_dec key (map fst defs)) as [|Hnin]; [reflexivity|].
    destruct Hnin. eapply obj_get_some_in, Hb. }
  repeat split; [exact Hc|exact Hget|].
  apply NoDup_count_occ'.
  - apply setKeyboardControls_NoDup, Hnd.
  - eapply obj_get_some_in, Hget.
Qed.

(** C7 (as amended).  An install whose definitions argument is absent
    ([null] or [undefined]) is [removeKeyboardControls]: from every state
    both leave the same state, with no current set and no listener of the
    document. *)
Theorem setKeyboardControls_absent_is_remove km zone s :
  setKeyboardControls keyCode None km zone s = removeKeyboardControls s /\
  _currentDefinitions (svc (fst (removeKeyboardControls s))) = None /\
  keydownListener (sources (fst (removeKeyboardControls s))) = None /\
  keyupListener (sources (fst (removeKeyboardControls s))) = None.
Proof. repeat split. Qed.

(** *** Handlers without a current set *)

Lemma forEach_tickKey_without_definitions ks s :
  _currentDefinitions (svc s) = None ->
  (forall k, In k ks -> exists ad, obj_get k (table s) = Some ad) ->
  forEach ks (tickKey PREDEFINED_KEYBOARD_ACTIONS) s = (s, Normal tt).
Proof.
  destruct s as [[cur tbl km cs] src w tr]. simpl. intros -> Hks.
  induction ks as [|k r IH]; [reflexivity|].
  cbn [forEach]. unfold bind at 1.
  destruct (Hks k (or_introl eq_refl)) as [ad Had].
  unfold tickKey at 1, getActive, executeAction, bind at 1 2, gets, ret. simpl.
  rewrite Had.
  destruct (activeAction ad), (state ad); apply IH; intros k' Hin; apply Hks; now right.
Qed.

Lemma handleTick_without_definitions s :
  _currentDefinitions (svc s) = None ->
  handleTick PREDEFINED_KEYBOARD_ACTIONS s = (s, Normal tt).
Proof.
  intros Hc. unfold handleTick, bind, gets. cbn [fst snd].
  apply forEach_tickKey_without_definitions; [exact Hc|].
  intros k. apply Object_keys_get.
Qed.

Lemma forEach_handleTick_without_definitions {A} (l : list A) s :
  _currentDefinitions (svc s) = None ->
  forEach l (fun _ => handleTick PREDEFINED_KEYBOARD_ACTIONS) s = (s, Normal tt).
Proof.
  intros Hc. induction l as [|x r IH]; [reflexivity|].
  cbn [forEach]. unfold bind. now rewrite handleTick_without_definitions.
Qed.

(** Without a current set and without key listeners, no delivered event
    changes anything. *)
Lemma deliver_all_without_definitions inputs s :
  _currentDefinitions (svc s) = None ->
  keydownListener (sources s) = None ->
  keyupListener (sources s) = None ->
  forallb handler_input inputs = true ->
  deliver_all keyCode PREDEFINED_KEYBOARD_ACTIONS inputs s = s.
Proof.
  intros Hc Hd Hu. induction inputs as [|i r IH]; [reflexivity|].
  simpl. intros Hall. apply andb_true_iff in Hall as [Hi Hr].
  assert (Hstep : deliver keyCode PREDEFINED_KEYBOARD_ACTIONS i s = s).
  { destruct i as [d km zone| |e|e| |f]; try discriminate; cbn [deliver].
    - unfold dispatch_keydown. now rewrite Hd.
    - unfold dispatch_keyup. now rewrite Hu.
    - unfold dispatch_tick. now rewrite forEach_handleTick_without_definitions. }
  rewrite Hstep. apply IH, Hr.
Qed.

(** C3 (as amended).  After [removeKeyboardControls] the document holds no
    key listener, so every key-down, key-up and tick that the event sources
    deliver afterwards changes nothing, calls nothing and does not throw;
    the tick handler called on its own does the same.  A key handler called
    on its own also changes nothing and calls nothing, but it throws a
    [TypeError]: [getAction] reads a property of [null]. *)
Theorem removed_service_ignores_events e inputs s :
  forallb handler_input inputs = true ->
  let s0 := fst (removeKeyboardControls s) in
  deliver_all keyCode PREDEFINED_KEYBOARD_ACTIONS inputs s0 = s0 /\
  dispatch_keydown e s0 = (s0, Normal tt) /\
  dispatch_keyup e s0 = (s0, Normal tt) /\
  dispatch_tick PREDEFINED_KEYBOARD_ACTIONS s0 = (s0, Normal tt) /\
  handleTick PREDEFINED_KEYBOARD_ACTIONS s0 = (s0, Normal tt) /\
  handleKeydown e s0 = (s0, Abrupt TypeError) /\
  handleKeyup e s0 = (s0, Abrupt TypeError).
Proof.
  intros Hall. cbv zeta. repeat split.
  - now apply deliver_all_without_definitions.
  - unfold dispatch_tick. now apply forEach_handleTick_without_definitions.
  - now apply handleTick_without_definitions.
Qed.

(** *** Exceptions during a tick *)

Lemma forEach_app {A} (l1 l2 : list A) (f : A -> M CesiumService KeyboardEvent World unit) s :
  forEach (l1 ++ l2) f s = bind (forEach l1 f) (fun _ => forEach l2 f) s.
Proof.
  revert s. induction l1 as [|x r IH]; intros s; [reflexivity|].
  cbn [app forEach]. unfold bind in *.
  destruct (f x s) as [s1 [[]|y]]; [apply IH|reflexivity].
Qed.

(** A visit that throws leaves the service and the listeners as they
    were. *)
Lemma tickKey_abrupt k s s' x :
  tickKey PREDEFINED_KEYBOARD_ACTIONS k s = (s', Abrupt x) ->
  svc s' = svc s /\ sources s' = sources s.
Proof.
  destruct s as [[cur tbl km cs] src w tr].
  unfold tickKey, executeAction, getActive, getParams, bind, gets, call, ret, throw,
    modify_svc; simpl.
  repeat (break_match; simpl in * ).
  all: intros [= <- ?]; auto.
Qed.

(** C4 (as amended).  When the visit of a key throws during a tick, the
    exception leaves [handleTick] at once: the state is the one the
    throwing visit left, so the keys after it in the order of
    [Object.keys] are not visited on that tick.  The throwing visit changes
    neither the table nor anything else of the service. *)
Theorem handleTick_exception_ends_tick s before k after s1 s2 x :
  Object_keys (table s) = before ++ k :: after ->
  forEach before (tickKey PREDEFINED_KEYBOARD_ACTIONS) s = (s1, Normal tt) ->
  tickKey PREDEFINED_KEYBOARD_ACTIONS k s1 = (s2, Abrupt x) ->
  handleTick PREDEFINED_KEYBOARD_ACTIONS s = (s2, Abrupt x) /\
  svc s2 = svc s1 /\ sources s2 = sources s1.
Proof.
  intros Hkeys Hbefore Hk. split; [|eapply tickKey_abrupt, Hk].
  unfold handleTick, bind at 1, gets. cbn [fst snd].
  rewrite Hkeys, forEach_app. unfold bind at 1. rewrite Hbefore.
  cbn [forEach]. unfold bind at 1. now rewrite Hk.
Qed.

(** *** The snapshot held by an entry *)

(** C5 (as amended).  In every reachable state, an entry holds an action
    exactly when it is [PRESSED], and then it holds the key-down event too;
    an [IGNORED] entry holds neither action nor event; a [NOT_PRESSED]
    entry holds no action. *)
Theorem reachable_snapshot s key ad :
  reachable keyCode PREDEFINED_KEYBOARD_ACTIONS s ->
  obj_get key (table s) = Some ad ->
  snapshot_ok ad = true.
Proof. intros Hr. apply (reachable_table_ok s Hr). Qed.

(** *** Cancellation *)

Lemma key_state_entry key s st :
  key_state key s = Some st <->
  exists ad, obj_get key (table s) = Some ad /\ state ad = st.
Proof.
  unfold key_state. destruct (obj_get key (table s)) as [ad|]; simpl.
  - split; [intros [= <-]; eauto|intros (ad' & [= <-] & <-); reflexivity].
  - split; [discriminate|intros (ad' & [=] & _)].
Qed.

(** A key in [IGNORED] stays there, and its action is not called, through
    any input that is neither its key-up nor a change of the set. *)
Lemma step_keeps_ignored key i s :
  key_state key s = Some IGNORED ->
  holds_key key (_keyMappingFn (svc s)) i = true ->
  let s' := step keyCode PREDEFINED_KEYBOARD_ACTIONS i s in
  key_state key s' = Some IGNORED /\
  _keyMappingFn (svc s') = _keyMappingFn (svc s) /\
  exists l, trace s' = trace s ++ l /\ existsb (is_action_call key) l = false.
Proof.
  intros Hst Hi.
  apply key_state_entry in Hst as (ad & Hget & Hig).
  destruct i as [d km zone| |e|e| |f]; cbn [step holds_key] in *; try discriminate.
  - destruct (handleKeydown_effect e s) as (l & Ht & Hact & Hother & _ & Hsame & _ & Hm & _).
    repeat split; eauto.
    apply key_state_entry. exists ad. split; [|exact Hig].
    destruct (JsString_eq_dec key (_keyMappingFn (svc s) e)) as [->|Hne].
    + now apply Hsame.
    + rewrite Hother; assumption.
  - destruct (handleKeyup_effect e s) as (l & Ht & Hact & Hother & _ & _ & Hm & _).
    destruct (JsString_eq_dec (_keyMappingFn (svc s) e) key) as [|Hne]; [discriminate|].
    repeat split; eauto.
    apply key_state_entry. exists ad. split; [|exact Hig].
    rewrite Hother; [assumption|congruence].
  - destruct (handleTick_effect s) as (Ht & _ & _ & Hm & _).
    assert (Hne : state ad <> PRESSED) by congruence.
    destruct (forEach_tickKey_idle (Object_keys (table s)) s key ad Hget Hne) as [Hg Hn].
    repeat split; eauto.
    apply key_state_entry. eauto.
  - repeat split.
    + apply key_state_entry. eauto.
    + exists []. split; [symmetry; apply app_nil_r|reflexivity].
Qed.

Lemma run_keeps_ignored key inputs s :
  key_state key s = Some IGNORED ->
  forallb (holds_key key (_keyMappingFn (svc s))) inputs = true ->
  let s' := run keyCode PREDEFINED_KEYBOARD_ACTIONS inputs s in
  key_state key s' = Some IGNORED /\
  exists l, trace s' = trace s ++ l /\ existsb (is_action_call key) l = false.
Proof.
  revert s. induction inputs as [|i r IH]; intros s Hst Hall; simpl in *.
  - split; [exact Hst|]. exists []. split; [symmetry; apply app_nil_r|reflexivity].
  - apply andb_true_iff in Hall as [Hi Hr].
    destruct (step_keeps_ignored key i s Hst Hi) as (Hst1 & Hm & l1 & Ht1 & Hn1).
    rewrite <- Hm in Hr.
    destruct (IH _ Hst1 Hr) as (Hst2 & l2 & Ht2 & Hn2).
    split; [exact Hst2|]. exists (l1 ++ l2). split.
    + rewrite Ht2, Ht1. symmetry. apply app_assoc.
    + now rewrite existsb_app, Hn1, Hn2.
Qed.


(** *** Executing an action *)

(** C8.  With a current set, executing a definition whose action is a
    number never changes the service, whatever the predefined action
    returns, so the key cannot become [IGNORED].  When the table has no
    entry for the number, nothing happens after the parameters are
    resolved (nothing at all when they are a plain value).  When it has
    one, it is called once with the controller, the resolved parameters and
    the event, and its return value is dropped. *)
Theorem predefined_action_execution b key e s defs id :
  _currentDefinitions (svc s) = Some defs ->
  action b = ActionId id ->
  let rp := getParams (params b) e s in
  let r := executeAction PREDEFINED_KEYBOARD_ACTIONS b key e s in
  svc (fst r) = svc s /\
  match PREDEFINED_KEYBOARD_ACTIONS id, snd rp with
  | Some predefinedAction, Normal p =>
      let out := predefinedAction (cesiumService (svc s)) p e (world (fst rp)) in
      world (fst r) = fst out /\
      trace (fst r) = trace (fst rp) ++ [CallPredefined id p e (snd out)] /\
      snd r = void (snd out)
  | _, _ => r = (fst rp, void (snd rp))
  end /\
  (forall v, params b = ParamsValue v -> PREDEFINED_KEYBOARD_ACTIONS id = None ->
             r = (s, Normal tt)).
Proof.
  destruct s as [[cur tbl km cs] src w tr]. simpl. intros -> Hid.
  unfold executeAction, getParams, bind, gets, call, ret, modify_svc; simpl.
  rewrite Hid.
  destruct (params b) as [v|pf]; simpl.
  - destruct (falsy v); simpl;
      (destruct (PREDEFINED_KEYBOARD_ACTIONS id) as [g|]; simpl;
       [ match goal with
         | |- context [g cs ?p e w] => destruct (g cs p e w) as [w' [r|x]]
         end; simpl; repeat split; intros; congruence
       | repeat split ]).
  - destruct (pf cs e w) as [w1 [p|x]]; simpl.
    + destruct (PREDEFINED_KEYBOARD_ACTIONS id) as [g|]; simpl.
      * destruct (g cs p e w1) as [w' [r|x]]; simpl; repeat split; intros; congruence.
      * repeat split; intros; congruence.
    + destruct (PREDEFINED_KEYBOARD_ACTIONS id); repeat split; intros; congruence.
Qed.

(** C9.  [getParams] gives a fresh empty object for a falsy definition, the
    definition itself for any other plain value, and for a function the
    result of calling it with the controller and the event.  Nothing of the
    result is kept: every execution of an action calls the function again,
    on the world as it then is, and hands its result to the action. *)
Theorem getParams_resolution e s :
  (forall v, getParams (ParamsValue v) e s =
             (s, Normal (if falsy v then JsObject [] else v))) /\
  (forall pf,
     let out := pf (cesiumService (svc s)) e (world s) in
     getParams (ParamsFunction pf) e s =
       ({| svc := svc s; sources := sources s; world := fst out;
           trace := trace s ++ [CallParams e (snd out)] |}, snd out)) /\
  (forall b key defs pf f,
     _currentDefinitions (svc s) = Some defs ->
     params b = ParamsFunction pf ->
     action b = ActionFn f ->
     let out := pf (cesiumService (svc s)) e (world s) in
     added_calls s (fst (executeAction PREDEFINED_KEYBOARD_ACTIONS b key e s)) =
       match snd out with
       | Normal p =>
           [CallParams e (Normal p);
            CallAction key p e (snd (f (cesiumService (svc s)) p e (fst out)))]
       | Abrupt x => [CallParams e (Abrupt x)]
       end).
Proof.
  destruct s as [[cur tbl km cs] src w tr]. simpl. repeat split.
  - intros v. unfold getParams, ret. now destruct (falsy v).
  - intros pf. unfold getParams, bind, gets, call; simpl.
    now destruct (pf cs e w).
  - intros b key defs pf f -> Hp Ha.
    unfold executeAction, getParams, bind, gets, call, ret, modify_svc, added_calls;
      simpl.
    rewrite Hp, Ha. simpl.
    destruct (pf cs e w) as [w1 [p|x]]; simpl.
    + destruct (f cs p e w1) as [w2 [v|x]]; simpl.
      * destruct (is_false_literal v); simpl;
          rewrite <- app_assoc; apply skipn_length_app.
      * rewrite <- app_assoc. apply skipn_length_app.
    + apply skipn_length_app.
Qed.

Lemma executeAction_effect b key e s :
  let s' := fst (executeAction PREDEFINED_KEYBOARD_ACTIONS b key e s) in
  (forall key', key' <> key -> obj_get key' (table s') = obj_get key' (table s)) /\
  (obj_get key (table s') = obj_get key (table s) \/
   obj_get key (table s') = Some ignored) /\
  _currentDefinitions (svc s') = _currentDefinitions (svc s) /\
  _keyMappingFn (svc s') = _keyMappingFn (svc s) /\
  cesiumService (svc s') = cesiumService (svc s) /\
  sources s' = sources s.
Proof.
  destruct s as [[cur tbl km cs] src w tr].
  unfold executeAction, getParams, bind, gets, call, ret, throw, modify_svc; simpl.
  repeat (break_match; simpl in * ).
  all: repeat split; intros; try reflexivity; try rewrite obj_get_set.
  all: key_cases; try congruence; auto.
  all: try (rewrite obj_get_set_same; auto).
Qed.

(** C10.  An execution that cancels touches the entry of its own key only:
    the entry of every other key, the current set and the key mapping stay
    as they were.  Over a whole tick, the entries that change are those of
    the keys whose action returned [false], each becoming [IGNORED]. *)
Theorem cancellation_is_local b key e key' s :
  key' <> key ->
  let s' := fst (executeAction PREDEFINED_KEYBOARD_ACTIONS b key e s) in
  let t' := fst (handleTick PREDEFINED_KEYBOARD_ACTIONS s) in
  obj_get key' (table s') = obj_get key' (table s) /\
  _currentDefinitions (svc s') = _currentDefinitions (svc s) /\
  _keyMappingFn (svc s') = _keyMappingFn (svc s) /\
  (forall k, obj_get k (table t') =
             if cancelled_in k (added_calls s t') then Some ignored
             else obj_get k (table s)) /\
  _currentDefinitions (svc t') = _currentDefinitions (svc s) /\
  _keyMappingFn (svc t') = _keyMappingFn (svc s).
Proof.
  intros Hne.
  destruct (executeAction_effect b key e s) as (Hother & _ & Hc & Hm & _).
  destruct (handleTick_effect s) as (_ & Htbl & Hc' & Hm' & _).
  repeat split; auto.
Qed.


(* ===================================================================== *)
(** ** Further properties *)
(* ===================================================================== *)

(** *** Key-down *)

(** The default mapping gives a string of one code unit, which is none of
    the names inherited from [Object.prototype]. *)
Lemma defaultKeyMappingFn_not_inherited (e : KeyboardEvent) :
  inherited_name (defaultKeyMappingFn keyCode e) = false.
Proof.
  unfold inherited_name, defaultKeyMappingFn, String_fromCharCode.
  destruct (in_dec JsString_eq_dec _ Object_prototype_names) as [Hin|]; [|reflexivity].
  exfalso. simpl in Hin.
  repeat (destruct Hin as [Hin|Hin]; [discriminate Hin|]). exact Hin.
Qed.

(** X1.  With a current set, a key-down or a key-up whose key the set does
    not declare, and whose key is not a name that objects inherit from
    [Object.prototype] (no key of the default mapping is one), leaves the
    whole system as it was and ends normally: no entry is created and
    nothing is called. *)
Theorem unbound_key_events_are_dropped e s defs :
  _currentDefinitions (svc s) = Some defs ->
  obj_get (_keyMappingFn (svc s) e) defs = None ->
  inherited_name (_keyMappingFn (svc s) e) = false ->
  handleKeydown e s = (s, Normal tt) /\ handleKeyup e s = (s, Normal tt).
Proof.
  destruct s as [[cur tbl km cs] src w tr]. simpl. intros -> Hnone _.
  unfold handleKeydown, handleKeyup, getAction, bind, gets, ret; simpl.
  rewrite Hnone. split; reflexivity.
Qed.

(** X2.  A key-down of a declared key without [validation] whose entry is
    not [IGNORED] (so also a repeated key-down of a held key) writes the
    [PRESSED] entry with the declared definition and this event, provided
    the parameters resolve; the only call made is the one of the parameter
    function, if there is one. *)
Theorem handleKeydown_accepts_without_validation e s defs b ad p :
  _currentDefinitions (svc s) = Some defs ->
  obj_get (_keyMappingFn (svc s) e) defs = Some b ->
  validation b = None ->
  obj_get (_keyMappingFn (svc s) e) (table s) = Some ad ->
  state ad <> IGNORED ->
  snd (getParams (params b) (Some e) s) = Normal p ->
  let s' := fst (handleKeydown e s) in
  obj_get (_keyMappingFn (svc s) e) (table s') = Some (pressed e b) /\
  snd (handleKeydown e s) = Normal tt /\
  added_calls s s' = added_calls s (fst (getParams (params b) (Some e) s)).
Proof.
  destruct s as [[cur tbl km cs] src w tr]. simpl. intros -> Hb Hv Had Hst.
  unfold handleKeydown, getAction, getActive, getParams, bind, gets, call, ret,
    modify_svc, added_calls; simpl.
  rewrite Hb. simpl. rewrite Had. simpl.
  destruct (state ad); [congruence| |];
    (destruct (params b) as [v|pf]; simpl;
     [ destruct (falsy v); simpl; rewrite Hv; simpl; intros _;
       rewrite obj_get_set_same; auto
     | destruct (pf cs (Some e) w) as [w1 [q|x]]; simpl; [|discriminate];
       rewrite Hv; simpl; intros _; rewrite obj_get_set_same; auto ]).
Qed.

(** X3.  With a [validation], a key-down of a declared key whose entry is
    not [IGNORED] resolves the parameters, then calls the validation once
    with the controller, those parameters and the event.  The key becomes
    [PRESSED] exactly when the validation returns the literal [true]; for
    any other value, and when it throws, the table is left as it was. *)
Theorem handleKeydown_validation_gate e s defs b ad v p :
  _currentDefinitions (svc s) = Some defs ->
  obj_get (_keyMappingFn (svc s) e) defs = Some b ->
  validation b = Some v ->
  obj_get (_keyMappingFn (svc s) e) (table s) = Some ad ->
  state ad <> IGNORED ->
  snd (getParams (params b) (Some e) s) = Normal p ->
  let char := _keyMappingFn (svc s) e in
  let s1 := fst (getParams (params b) (Some e) s) in
  let out := v (cesiumService (svc s)) p (Some e) (world s1) in
  let s' := fst (handleKeydown e s) in
  trace s' = trace s1 ++ [CallValidation char p (Some e) (snd out)] /\
  world s' = fst out /\
  table s' = (if accepted (snd out) then obj_set char (pressed e b) (table s)
              else table s) /\
  snd (handleKeydown e s) = void (snd out).
Proof.
  destruct s as [[cur tbl km cs] src w tr]. simpl. intros -> Hb Hv Had Hst.
  unfold handleKeydown, getAction, getActive, getParams, bind, gets, call, ret,
    modify_svc; simpl.
  rewrite Hb. simpl. rewrite Had. simpl.
  destruct (state ad); [congruence| |];
    (destruct (params b) as [pv|pf]; simpl;
     [ destruct (falsy pv); simpl; rewrite Hv; simpl; intros [= <-]
     | destruct (pf cs (Some e) w) as [w1 [q|x]]; simpl; [|discriminate];
       rewrite Hv; simpl; intros [= <-] ];
     match goal with
     | |- context [v cs ?q (Some e) ?w0] =>
         destruct (v cs q (Some e) w0) as [w2 [r|x]]; simpl;
         [destruct (is_true_literal r); simpl|]; auto
     end).
Qed.

(** X4.  A key-down of a declared key whose entry is [IGNORED] leaves the
    whole system as it was: the parameters are not resolved and the
    validation is not called. *)
Theorem handleKeydown_on_ignored_key_does_nothing e s defs b ad :
  _currentDefinitions (svc s) = Some defs ->
  obj_get (_keyMappingFn (svc s) e) defs = Some b ->
  obj_get (_keyMappingFn (svc s) e) (table s) = Some ad ->
  state ad = IGNORED ->
  handleKeydown e s = (s, Normal tt).
Proof.
  destruct s as [[cur tbl km cs] src w tr]. simpl. intros -> Hb Had Hst.
  unfold handleKeydown, getAction, getActive, bind, gets, ret; simpl.
  rewrite Hb. simpl. rewrite Had. simpl. now rewrite Hst.
Qed.

(** X5.  A key-down that ends with an exception (of the parameter
    function, of the validation, or the [TypeError] of a missing set) has
    changed neither the table nor anything else of the service, nor the
    listeners. *)
Theorem handleKeydown_exception_keeps_service e s s' x :
  handleKeydown e s = (s', Abrupt x) ->
  svc s' = svc s /\ sources s' = sources s.
Proof.
  destruct s as [[cur tbl km cs] src w tr].
  unfold handleKeydown, getAction, getActive, getParams, bind, gets, call, ret, throw,
    modify_svc; simpl.
  repeat (break_match; simpl in * ).
  all: intros [= <- ?]; auto.
Qed.

(** *** Listeners *)

Lemma listeners_match_cases s :
  listeners_match s = true ->
  (_currentDefinitions (svc s) = None /\
   sources s = {| keydownListener := None; keyupListener := None;
                  tickListeners := [] |}) \/
  (exists d z, _currentDefinitions (svc s) = Some d /\
               sources s = {| keydownListener := Some z; keyupListener := Some z;
                              tickListeners := [z] |}).
Proof.
  unfold listeners_match.
  destruct s as [[cur tbl km cs] [kd ku tk] w tr]; simpl.
  destruct cur as [d|], kd as [z1|], ku as [z2|], tk as [|z3 [|z4 r]];
    try discriminate; intros H.
  - right. apply andb_true_iff in H as [H1 H2].
    apply eqb_prop in H1, H2. subst. eauto.
  - now left.
Qed.

Lemma setKeyboardControls_sources defs km zone s :
  sources (fst (setKeyboardControls keyCode (Some defs) km zone s)) =
  match _currentDefinitions (svc s) with
  | Some _ => sources s
  | None => sources (fst (registerEvents zone s))
  end.
Proof.
  unfold setKeyboardControls.
  set (loop := forEach (Object_keys defs) _).
  unfold bind, gets. cbn [fst snd].
  destruct (_currentDefinitions (svc s)); cbn -[loop].
  all: match goal with
       | |- sources (fst (_ ?x)) = _ =>
           destruct (forEach_reset (Object_keys defs) x) as (_ & _ & _ & Hs & _)
       end.
  all: subst loop; rewrite Hs; reflexivity.
Qed.

Lemma step_listeners_match i s :
  listeners_match s = true ->
  listeners_match (step keyCode PREDEFINED_KEYBOARD_ACTIONS i s) = true.
Proof.
  intros Hok.
  assert (Hsame : forall s',
            _currentDefinitions (svc s') = _currentDefinitions (svc s) ->
            sources s' = sources s -> listeners_match s' = true).
  { intros s' Hc Hs. unfold listeners_match in *. now rewrite Hc, Hs. }
  destruct i as [[defs|] km zone| |e|e| |f]; cbn [step].
  - destruct (setKeyboardControls_effect defs km zone s) as (_ & _ & _ & Hc & _).
    pose proof (setKeyboardControls_sources defs km zone s) as Hs.
    unfold listeners_match. rewrite Hc, Hs.
    destruct (listeners_match_cases s Hok) as [[Hn Hsrc]|(d & z & Hd & Hsrc)].
    + rewrite Hn. cbn. rewrite Hsrc. cbn. now rewrite eqb_reflx.
    + rewrite Hd, Hsrc. cbn. now rewrite eqb_reflx.
  - destruct (listeners_match_cases s Hok) as [[Hn Hsrc]|(d & z & Hd & Hsrc)];
      unfold listeners_match; cbn; rewrite Hsrc; reflexivity.
  - destruct (listeners_match_cases s Hok) as [[Hn Hsrc]|(d & z & Hd & Hsrc)];
      unfold listeners_match; cbn; rewrite Hsrc; reflexivity.
  - destruct (handleKeydown_effect e s) as (l & _ & _ & _ & _ & _ & Hc & _ & _ & Hs).
    now apply Hsame.
  - destruct (handleKeyup_effect e s) as (l & _ & _ & _ & _ & Hc & _ & _ & Hs).
    now apply Hsame.
  - destruct (handleTick_effect s) as (_ & _ & Hc & _ & _ & Hs).
    now apply Hsame.
  - now apply Hsame.
Qed.

Lemma reachable_listeners s :
  reachable keyCode PREDEFINED_KEYBOARD_ACTIONS s -> listeners_match s = true.
Proof.
  intros (cs & w & inputs & ->).
  assert (H0 : listeners_match (initial keyCode cs w) = true) by reflexivity.
  revert H0. generalize (initial keyCode cs w).
  induction inputs as [|i r IH]; intros s0 H0; simpl; [exact H0|].
  apply IH, step_listeners_match, H0.
Qed.

(** X6.  In every reachable state the listeners follow the current set:
    with a set installed, the document holds one key-down and one key-up
    listener and the clock one tick listener, all registered in the same
    zone; with none installed, no listener is left.  No sequence of
    installs and removals leaks or doubles a subscription. *)
Theorem reachable_listeners_match_definitions s :
  reachable keyCode PREDEFINED_KEYBOARD_ACTIONS s ->
  listeners_match s = true /\
  List.length (tickListeners (sources s)) =
    (if populated (_currentDefinitions (svc s)) then 1 else 0).
Proof.
  intros Hr. pose proof (reachable_listeners s Hr) as Hok.
  split; [exact Hok|].
  destruct (listeners_match_cases s Hok) as [[Hn Hsrc]|(d & z & Hd & Hsrc)].
  - now rewrite Hn, Hsrc.
  - now rewrite Hd, Hsrc.
Qed.

(** X7.  From a reachable state, a second [removeKeyboardControls] changes
    nothing: the removal is idempotent. *)
Theorem removeKeyboardControls_idempotent s :
  reachable keyCode PREDEFINED_KEYBOARD_ACTIONS s ->
  removeKeyboardControls (fst (removeKeyboardControls s)) =
  (fst (removeKeyboardControls s), Normal tt).
Proof.
  intros Hr. pose proof (reachable_listeners s Hr) as Hok.
  destruct s as [[cur tbl km cs] src w tr].
  destruct (listeners_match_cases _ Hok) as [[Hn Hsrc]|(d & z & Hd & Hsrc)];
    simpl in *; subst; reflexivity.
Qed.

(** X8.  An install over an installed set registers nothing: the listeners
    stay as the first install left them, whatever [outsideOfAngularZone]
    is this time. *)
Theorem reinstall_keeps_listeners defs km zone s d0 :
  _currentDefinitions (svc s) = Some d0 ->
  sources (fst (setKeyboardControls keyCode (Some defs) km zone s)) = sources s.
Proof.
  intros Hd. rewrite setKeyboardControls_sources, Hd. reflexivity.
Qed.

(** X9.  The three handlers never change the configuration: the current
    set, the key mapping, the controller handle and the listeners are the
    same after a key-down, a key-up or a tick, however it ends. *)
Theorem handlers_keep_configuration e s :
  let unchanged s' :=
    _currentDefinitions (svc s') = _currentDefinitions (svc s) /\
    _keyMappingFn (svc s') = _keyMappingFn (svc s) /\
    cesiumService (svc s') = cesiumService (svc s) /\
    sources s' = sources s in
  unchanged (fst (handleKeydown e s)) /\
  unchanged (fst (handleKeyup e s)) /\
  unchanged (fst (handleTick PREDEFINED_KEYBOARD_ACTIONS s)).
Proof.
  cbv zeta.
  destruct (handleKeydown_effect e s) as (l & _ & _ & _ & _ & _ & H1).
  destruct (handleKeyup_effect e s) as (l' & _ & _ & _ & _ & H2).
  destruct (handleTick_effect s) as (_ & _ & H3).
  auto.
Qed.

(** X10.  The two public methods call no callback and leave the world
    alone, and they never throw. *)
Theorem public_methods_call_nothing d km zone s :
  let r := setKeyboardControls keyCode d km zone s in
  let r' := removeKeyboardControls s in
  (snd r = Normal tt /\ trace (fst r) = trace s /\ world (fst r) = world s) /\
  (snd r' = Normal tt /\ trace (fst r') = trace s /\ world (fst r') = world s).
Proof.
  split; [|repeat split].
  destruct d as [defs|]; [|repeat split].
  destruct (setKeyboardControls_effect defs km zone s) as (H1 & H2 & H3 & _).
  auto.
Qed.

(** *** The table over time *)

Lemma step_keeps_entries i s key :
  populated (obj_get key (table s)) = true ->
  populated (obj_get key (table (step keyCode PREDEFINED_KEYBOARD_ACTIONS i s))) = true.
Proof.
  intros Hp.
  destruct i as [[defs|] km zone| |e|e| |f]; cbn [step]; try exact Hp.
  - destruct (setKeyboardControls_effect defs km zone s) as (_ & _ & _ & _ & _ & _ & H).
    rewrite H. now destruct (in_dec JsString_eq_dec key (map fst defs)).
  - destruct (handleKeydown_effect e s) as (l & _ & _ & Hother & Hchar & _).
    destruct (JsString_eq_dec key (_keyMappingFn (svc s) e)) as [->|Hne].
    + destruct Hchar as [H|[a H]]; rewrite H; auto.
    + rewrite Hother; auto.
  - destruct (handleKeyup_effect e s) as (l & _ & _ & Hother & Hchar & _).
    destruct (JsString_eq_dec key (_keyMappingFn (svc s) e)) as [->|Hne].
    + destruct Hchar as [H|H]; rewrite H; auto.
    + rewrite Hother; auto.
  - destruct (handleTick_effect s) as (_ & H & _).
    rewrite H. now destruct (cancelled_in key _).
Qed.

(** X11.  No method and no handler ever deletes an entry of the table: a
    key that has an entry keeps one through every input, also through the
    removal of the set and the install of a set that does not declare
    it. *)
Theorem entries_are_never_deleted inputs s key :
  populated (obj_get key (table s)) = true ->
  populated (obj_get key (table (run keyCode PREDEFINED_KEYBOARD_ACTIONS inputs s)))
  = true.
Proof.
  revert s. induction inputs as [|i r IH]; intros s Hp; simpl; [exact Hp|].
  apply IH, step_keeps_entries, Hp.
Qed.

Lemma step_declared_have_entries i s :
  declared_have_entries s ->
  declared_have_entries (step keyCode PREDEFINED_KEYBOARD_ACTIONS i s).
Proof.
  intros Hinv.
  assert (Hsame : forall i',
            _currentDefinitions (svc (step keyCode PREDEFINED_KEYBOARD_ACTIONS i' s))
            = _currentDefinitions (svc s) ->
            declared_have_entries (step keyCode PREDEFINED_KEYBOARD_ACTIONS i' s)).
  { intros i' Hc defs key b Hd Hb. rewrite Hc in Hd.
    apply step_keeps_entries. eapply Hinv; eassumption. }
  destruct i as [[defs|] km zone| |e|e| |f].
  - intros d key b Hd Hb. cbn [step] in *.
    destruct (setKeyboardControls_effect defs km zone s) as (_ & _ & _ & Hc & _ & _ & H).
    rewrite Hc in Hd. injection Hd as <-. rewrite H.
    destruct (in_dec JsString_eq_dec key (map fst defs)) as [|Hnin]; [reflexivity|].
    destruct Hnin. eapply obj_get_some_in, Hb.
  - intros d key b Hd. discriminate Hd.
  - intros d key b Hd. discriminate Hd.
  - apply Hsame. cbn [step].
    now destruct (handleKeydown_effect e s) as (l & _ & _ & _ & _ & _ & Hc & _).
  - apply Hsame. cbn [step].
    now destruct (handleKeyup_effect e s) as (l & _ & _ & _ & _ & Hc & _).
  - apply Hsame. cbn [step].
    now destruct (handleTick_effect s) as (_ & _ & Hc & _).
  - apply Hsame. reflexivity.
Qed.

(** X12.  In every reachable state, each key that the current set declares
    has an entry in the table; so the handlers, which read the entry of a
    declared key without a test, find it. *)
Theorem reachable_declared_keys_have_entries s defs key b :
  reachable keyCode PREDEFINED_KEYBOARD_ACTIONS s ->
  _currentDefinitions (svc s) = Some defs ->
  obj_get key defs = Some b ->
  populated (obj_get key (table s)) = true.
Proof.
  intros (cs & w & inputs & ->).
  assert (H0 : declared_have_entries (initial keyCode cs w))
    by (intros d k b' Hd; discriminate Hd).
  revert H0. generalize (initial keyCode cs w).
  induction inputs as [|i r IH]; intros s0 H0; simpl.
  - intros Hd Hb. eapply H0; eassumption.
  - apply IH, step_declared_have_entries, H0.
Qed.

(** *** The default key mapping *)

(** X13.  The default mapping sends two events to the same key exactly
    when their key codes agree modulo 2^16; the key is a string of one code
    unit. *)
Theorem defaultKeyMappingFn_same_key (e1 e2 : KeyboardEvent) :
  (defaultKeyMappingFn keyCode e1 = defaultKeyMappingFn keyCode e2 <->
   (keyCode e1 mod 65536 = keyCode e2 mod 65536)%Z) /\
  List.length (defaultKeyMappingFn keyCode e1) = 1.
Proof.
  unfold defaultKeyMappingFn, String_fromCharCode. split; [|reflexivity].
  split.
  - intros [= H]. apply Z2N.inj in H; [exact H| |]; apply Z.mod_pos_bound; lia.
  - intros ->. reflexivity.
Qed.

(** *** Ticks *)

Lemma obj_get_some_In_pair {V} (o : JsObj V) k v :
  obj_get k o = Some v -> In (k, v) o.
Proof.
  induction o as [|[k' v'] r IH]; simpl; [discriminate|].
  destruct (JsString_eq_dec k k') as [->|Hne].
  - intros [= ->]. now left.
  - intros H. right. auto.
Qed.

Lemma forEach_tickKey_nothing_held ks s :
  no_key_held s = true ->
  (forall k, In k ks -> exists ad, obj_get k (table s) = Some ad) ->
  forEach ks (tickKey PREDEFINED_KEYBOARD_ACTIONS) s = (s, Normal tt).
Proof.
  destruct s as [[cur tbl km cs] src w tr]. unfold no_key_held. simpl.
  intros Hall Hks. induction ks as [|k r IH]; [reflexivity|].
  cbn [forEach]. unfold bind at 1.
  destruct (Hks k (or_introl eq_refl)) as [ad Had].
  unfold tickKey at 1, getActive, bind at 1 2, gets, ret. simpl.
  rewrite Had.
  assert (Hst : is_pressed (state ad) = false).
  { rewrite forallb_forall in Hall.
    specialize (Hall _ (obj_get_some_In_pair _ _ _ Had)). simpl in Hall.
    now destruct (is_pressed (state ad)). }
  destruct (activeAction ad), (state ad); try discriminate Hst;
    apply IH; intros k' Hin; apply Hks; now right.
Qed.

(** X14.  A tick while no key is [PRESSED] leaves the whole system as it
    was and ends normally: nothing is called, whatever the table holds in
    other states. *)
Theorem handleTick_without_held_key_does_nothing s :
  no_key_held s = true ->
  handleTick PREDEFINED_KEYBOARD_ACTIONS s = (s, Normal tt).
Proof.
  intros Hall. unfold handleTick, bind, gets. cbn [fst snd].
  apply forEach_tickKey_nothing_held; [exact Hall|].
  intros k. apply Object_keys_get.
Qed.

Lemma existsb_false_filter {A} (f : A -> bool) (l : list A) :
  existsb f l = false -> filter f l = [].
Proof.
  induction l as [|x r IH]; simpl; [reflexivity|].
  intros H. apply orb_false_iff in H as [-> Hr]. auto.
Qed.

Lemma added_calls_trans s s1 s2 l1 l2 :
  trace s1 = trace s ++ l1 -> trace s2 = trace s1 ++ l2 ->
  added_calls s s2 = added_calls s s1 ++ added_calls s1 s2.
Proof.
  intros H1 H2.
  rewrite (added_calls_app _ _ _ H1), (added_calls_app _ _ _ H2).
  apply added_calls_app. rewrite H2, H1. symmetry. apply app_assoc.
Qed.

(** The calls of the action of [key] made by one visit: none when another
    key is visited, at most one in any case, and exactly one when [key] is
    visited while held with a callback, under a current set, and the visit
    ends normally. *)
Lemma tickKey_count k s key :
  let r := tickKey PREDEFINED_KEYBOARD_ACTIONS k s in
  let n := List.length (filter (is_action_call key) (added_calls s (fst r))) in
  n <= 1 /\
  (forall ad b f d,
     k = key ->
     _currentDefinitions (svc s) = Some d ->
     obj_get key (table s) = Some ad -> state ad = PRESSED ->
     activeAction ad = Some b -> action b = ActionFn f ->
     snd r = Normal tt -> n = 1).
Proof.
  destruct s as [[cur tbl km cs] src w tr].
  unfold tickKey, executeAction, getActive, getParams, bind, gets, call, ret, throw,
    modify_svc, added_calls; simpl.
  repeat (break_match; simpl in * ).
  all: rewrite <- ?app_assoc, ?skipn_length_app, ?skipn_all; simpl.
  all: split; [key_cases; simpl; lia|].
  all: intros ad' b' f' d' -> Hd Hget Hst Hact Hfn Hn;
       try discriminate;
       repeat match goal with
         | H : Some _ = Some _ |- _ => injection H as H; subst
         end;
       try congruence.
  all: destruct (JsString_eq_dec key key); simpl; congruence.
Qed.

Lemma forEach_tickKey_at_most_once ks s key :
  NoDup ks ->
  List.length (filter (is_action_call key)
                 (added_calls s (fst (forEach ks (tickKey PREDEFINED_KEYBOARD_ACTIONS) s))))
  <= 1.
Proof.
  revert s. induction ks as [|k r IH]; intros s Hnd; simpl.
  - unfold added_calls. rewrite skipn_all. simpl. lia.
  - apply NoDup_cons_iff in Hnd as [Hk Hr]. unfold bind.
    destruct (tickKey_effect k s) as (l1 & Ht1 & Hact1 & _).
    destruct (tickKey_count k s key) as [Hle _].
    destruct (tickKey PREDEFINED_KEYBOARD_ACTIONS k s) as [s1 [[]|x]]; simpl in *;
      [|exact Hle].
    destruct (forEach_tickKey_effect r s1) as (l2 & Ht2 & Hact2 & _).
    rewrite (added_calls_trans _ _ _ _ _ Ht1 Ht2), filter_app, length_app.
    destruct (JsString_eq_dec key k) as [->|Hne].
    + rewrite (added_calls_app _ _ _ Ht2), (existsb_false_filter _ _ (Hact2 k Hk)).
      simpl. lia.
    + rewrite (added_calls_app _ _ _ Ht1), (existsb_false_filter _ _ (Hact1 key Hne)).
      simpl. apply IH, Hr.
Qed.

Lemma forEach_tickKey_once ks s key ad b f d :
  NoDup ks -> In key ks ->
  _currentDefinitions (svc s) = Some d ->
  obj_get key (table s) = Some ad -> state ad = PRESSED ->
  activeAction ad = Some b -> action b = ActionFn f ->
  snd (forEach ks (tickKey PREDEFINED_KEYBOARD_ACTIONS) s) = Normal tt ->
  List.length (filter (is_action_call key)
                 (added_calls s (fst (forEach ks (tickKey PREDEFINED_KEYBOARD_ACTIONS) s))))
  = 1.
Proof.
  revert s. induction ks as [|k r IH]; intros s Hnd Hin Hd Hget Hst Hact Hfn;
    [destruct Hin|].
  apply NoDup_cons_iff in Hnd as [Hk Hr]. cbn [forEach]. unfold bind.
  destruct (tickKey_effect k s) as (l1 & Ht1 & Hact1 & _ & Htbl1 & Hc1 & _).
  destruct (tickKey_count k s key) as [_ Hone].
  destruct (tickKey PREDEFINED_KEYBOARD_ACTIONS k s) as [s1 [[]|x]]; simpl in *;
    [|discriminate].
  intros Hn.
  destruct (forEach_tickKey_effect r s1) as (l2 & Ht2 & Hact2 & _).
  rewrite (added_calls_trans _ _ _ _ _ Ht1 Ht2), filter_app, length_app.
  destruct (JsString_eq_dec key k) as [->|Hne].
  - rewrite (Hone ad b f d eq_refl Hd Hget Hst Hact Hfn eq_refl).
    rewrite (added_calls_app _ _ _ Ht2), (existsb_false_filter _ _ (Hact2 k Hk)).
    reflexivity.
  - rewrite (added_calls_app _ _ _ Ht1), (existsb_false_filter _ _ (Hact1 key Hne)).
    simpl. destruct Hin as [->|Hin]; [congruence|].
    apply IH; try assumption; try congruence.
    rewrite Htbl1, (no_action_no_cancel _ _ (Hact1 key Hne)). exact Hget.
Qed.

(** X15.  In one tick the action of a key is called at most once; it is
    called exactly once when the key is [PRESSED] with a callback as its
    action, a set is current, and the tick ends normally. *)
Theorem handleTick_calls_held_action_once s key ad b f d :
  NoDup (map fst (table s)) ->
  _currentDefinitions (svc s) = Some d ->
  obj_get key (table s) = Some ad -> state ad = PRESSED ->
  activeAction ad = Some b -> action b = ActionFn f ->
  let r := handleTick PREDEFINED_KEYBOARD_ACTIONS s in
  let n := List.length (filter (is_action_call key) (added_calls s (fst r))) in
  n <= 1 /\ (snd r = Normal tt -> n = 1).
Proof.
  intros Hnd Hd Hget Hst Hact Hfn.
  assert (Hks : NoDup (Object_keys (table s))).
  { eapply Permutation_NoDup; [symmetry; apply Object_keys_perm|exact Hnd]. }
  unfold handleTick, bind, gets. cbn [fst snd]. split.
  - apply forEach_tickKey_at_most_once, Hks.
  - eapply forEach_tickKey_once; try eassumption.
    apply Object_keys_In. eapply obj_get_some_in, Hget.
Qed.

(** A key whose entry is not [PRESSED], or that has no entry, stays so
    through an input that cannot press it, and its action is not called. *)
Lemma step_keeps_idle key i s :
  key_state key s <> Some PRESSED ->
  idle_input key (_keyMappingFn (svc s)) i = true ->
  let s' := step keyCode PREDEFINED_KEYBOARD_ACTIONS i s in
  key_state key s' <> Some PRESSED /\
  _keyMappingFn (svc s') = _keyMappingFn (svc s) /\
  exists l, trace s' = trace s ++ l /\ existsb (is_action_call key) l = false.
Proof.
  intros Hst Hi.
  destruct i as [d km zone| |e|e| |f]; cbn [step idle_input] in *; try discriminate.
  - destruct (handleKeydown_effect e s) as (l & Ht & Hact & Hother & _ & _ & _ & Hm & _).
    destruct (JsString_eq_dec (_keyMappingFn (svc s) e) key) as [|Hne]; [discriminate|].
    repeat split; eauto.
    unfold key_state in *. rewrite Hother; [exact Hst|congruence].
  - destruct (handleKeyup_effect e s) as (l & Ht & Hact & Hother & Hchar & _ & Hm & _).
    repeat split; eauto.
    unfold key_state in *.
    destruct (JsString_eq_dec key (_keyMappingFn (svc s) e)) as [->|Hne].
    + destruct Hchar as [H|H]; rewrite H; [exact Hst|discriminate].
    + rewrite Hother; [exact Hst|exact Hne].
  - destruct (handleTick_effect s) as (Ht & Htbl & _ & Hm & _).
    assert (Hn : existsb (is_action_call key)
                   (added_calls s (fst (handleTick PREDEFINED_KEYBOARD_ACTIONS s)))
                 = false).
    { destruct (obj_get key (table s)) as [ad|] eqn:Hget.
      - apply (forEach_tickKey_idle (Object_keys (table s)) s key ad Hget).
        intros Hp. apply Hst. unfold key_state. now rewrite Hget, <- Hp.
      - destruct (forEach_tickKey_effect (Object_keys (table s)) s)
          as (l & Htl & Hact & _).
        unfold handleTick, bind, gets. cbn [fst snd].
        rewrite (added_calls_app _ _ _ Htl). apply Hact.
        intros Hin. apply Object_keys_get in Hin as [ad Had]. congruence. }
    repeat split; eauto.
    unfold key_state in *. rewrite Htbl, (no_action_no_cancel _ _ Hn). exact Hst.
  - repeat split; [exact Hst|].
    exists []. split; [symmetry; apply app_nil_r|reflexivity].
Qed.

Lemma run_keeps_idle key inputs s :
  key_state key s <> Some PRESSED ->
  forallb (idle_input key (_keyMappingFn (svc s))) inputs = true ->
  let s' := run keyCode PREDEFINED_KEYBOARD_ACTIONS inputs s in
  key_state key s' <> Some PRESSED /\
  exists l, trace s' = trace s ++ l /\ existsb (is_action_call key) l = false.
Proof.
  revert s. induction inputs as [|i r IH]; intros s Hst Hall; simpl in *.
  - split; [exact Hst|].
    exists []. split; [symmetry; apply app_nil_r|reflexivity].
  - apply andb_true_iff in Hall as [Hi Hr].
    destruct (step_keeps_idle key i s Hst Hi) as (Hst1 & Hm & l1 & Ht1 & Hn1).
    rewrite <- Hm in Hr.
    destruct (IH _ Hst1 Hr) as (Hst2 & l2 & Ht2 & Hn2).
    split; [exact Hst2|]. exists (l1 ++ l2). split.
    + rewrite Ht2, Ht1. symmetry. apply app_assoc.
    + now rewrite existsb_app, Hn1, Hn2.
Qed.

Lemma forallb_firstn {A} (f : A -> bool) n (l : list A) :
  forallb f l = true -> forallb f (firstn n l) = true.
Proof.
  revert l. induction n as [|n IH]; intros [|x r]; simpl; auto.
  intros H. apply andb_true_iff in H as [-> Hr]. simpl. auto.
Qed.

(** The visit of a key that has an entry and is not held changes nothing
    and calls nothing. *)
Lemma tickKey_unheld key s ad :
  obj_get key (table s) = Some ad -> state ad <> PRESSED ->
  tickKey PREDEFINED_KEYBOARD_ACTIONS key s = (s, Normal tt).
Proof.
  destruct s as [[cur tbl km cs] src w tr]. simpl. intros Had Hst.
  unfold tickKey, getActive, bind, gets, ret. simpl. rewrite Had.
  destruct (activeAction ad), (state ad); congruence.
Qed.

(** An iteration in which [key] is not held is the iteration over the other
    keys: the visit of [key] contributes nothing. *)
Lemma forEach_tickKey_skips_unheld key ks s :
  key_state key s <> Some PRESSED ->
  (forall k, In k ks -> populated (obj_get k (table s)) = true) ->
  forEach ks (tickKey PREDEFINED_KEYBOARD_ACTIONS) s =
  forEach (other_keys key ks) (tickKey PREDEFINED_KEYBOARD_ACTIONS) s.
Proof.
  revert s. induction ks as [|k r IH]; intros s Hst Hks; [reflexivity|].
  cbn [other_keys filter forEach]. fold (other_keys key r).
  destruct (JsString_eq_dec k key) as [->|Hne].
  - pose proof (Hks key (or_introl eq_refl)) as Hp.
    destruct (obj_get key (table s)) as [ad|] eqn:Had; [|discriminate].
    unfold bind. rewrite (tickKey_unheld key s ad Had).
    + apply IH; [exact Hst|]. intros k Hin. apply Hks. now right.
    + intros Hpr. apply Hst. unfold key_state. now rewrite Had, <- Hpr.
  - cbn [forEach]. unfold bind.
    destruct (tickKey_effect k s) as (l1 & _ & Hact & _ & Htbl & _).
    destruct (tickKey PREDEFINED_KEYBOARD_ACTIONS k s) as [s1 [[]|x]]; simpl in *;
      [|reflexivity].
    apply IH.
    + unfold key_state in *. rewrite Htbl.
      rewrite (no_action_no_cancel _ _ (Hact key (fun H => Hne (eq_sym H)))).
      exact Hst.
    + intros k' Hin. rewrite Htbl.
      destruct (cancelled_in k' l1); [reflexivity|]. apply Hks. now right.
Qed.

(** X16.  The action of a key, callback or predefined, runs only while the
    key is held.  From a state where the key is not [PRESSED] (or has no
    entry), through any sequence of ticks, key-ups and key-downs of other
    keys: the key is not [PRESSED] at the end; every tick, during the
    sequence and after it, is the iteration over the other keys, so that
    nothing is resolved or called for this key; and the log holds no call
    of its action callback. *)
Theorem unheld_key_is_not_run key inputs s :
  key_state key s <> Some PRESSED ->
  forallb (idle_input key (_keyMappingFn (svc s))) inputs = true ->
  let s' := run keyCode PREDEFINED_KEYBOARD_ACTIONS inputs s in
  existsb (is_action_call key) (added_calls s s') = false /\
  is_pressed (match key_state key s' with Some st => st | None => NOT_PRESSED end)
  = false /\
  (forall n,
     let sn := run keyCode PREDEFINED_KEYBOARD_ACTIONS (firstn n inputs) s in
     handleTick PREDEFINED_KEYBOARD_ACTIONS sn =
     forEach (other_keys key (Object_keys (table sn)))
       (tickKey PREDEFINED_KEYBOARD_ACTIONS) sn).
Proof.
  intros Hst Hall.
  destruct (run_keeps_idle key inputs s Hst Hall) as (Hst' & l & Ht & Hn).
  cbv zeta. repeat split.
  - now rewrite (added_calls_app _ _ _ Ht).
  - destruct (key_state key (run keyCode PREDEFINED_KEYBOARD_ACTIONS inputs s))
      as [[]|]; try reflexivity.
    now destruct Hst'.
  - intros n.
    destruct (run_keeps_idle key (firstn n inputs) s Hst (forallb_firstn _ n _ Hall))
      as (Hn' & _).
    unfold handleTick, bind, gets. cbn [fst snd].
    apply forEach_tickKey_skips_unheld; [exact Hn'|].
    intros k Hin. apply Object_keys_get in Hin as [ad Had]. now rewrite Had.
Qed.

(** A visit of a key that has an entry throws only what a callback threw:
    the exception is the outcome of the last call logged. *)
Lemma tickKey_abrupt_last k s s' x ad :
  obj_get k (table s) = Some ad ->
  tickKey PREDEFINED_KEYBOARD_ACTIONS k s = (s', Abrupt x) ->
  exists l c, trace s' = trace s ++ l ++ [c] /\ call_result c = Abrupt x.
Proof.
  destruct s as [[cur tbl km cs] src w tr]. simpl. intros Had.
  unfold tickKey, executeAction, getActive, getParams, bind, gets, call, ret, throw,
    modify_svc; simpl.
  rewrite Had.
  repeat (break_match; simpl in * ).
  all: intros [= <- <-]; simpl.
  all: match goal with
       | |- exists l c, (_ ++ [?a]) ++ [?b] = _ /\ _ =>
           exists [a], b; split; [symmetry; apply app_assoc|reflexivity]
       | |- exists l c, _ ++ [?a] = _ /\ _ =>
           exists [], a; split; reflexivity
       end.
Qed.

Lemma forEach_tickKey_abrupt_last ks s x :
  (forall k, In k ks -> populated (obj_get k (table s)) = true) ->
  snd (forEach ks (tickKey PREDEFINED_KEYBOARD_ACTIONS) s) = Abrupt x ->
  exists l c,
    trace (fst (forEach ks (tickKey PREDEFINED_KEYBOARD_ACTIONS) s))
    = trace s ++ l ++ [c] /\ call_result c = Abrupt x.
Proof.
  revert s. induction ks as [|k r IH]; intros s Hks; [discriminate|].
  cbn [forEach]. unfold bind.
  destruct (tickKey_effect k s) as (l1 & Ht1 & _ & _ & Htbl1 & _).
  pose proof (Hks k (or_introl eq_refl)) as Hk.
  destruct (obj_get k (table s)) as [ad|] eqn:Had; [|discriminate].
  pose proof (tickKey_abrupt_last k s) as Hlast.
  destruct (tickKey PREDEFINED_KEYBOARD_ACTIONS k s) as [s1 [[]|y]]; simpl in *.
  - intros Hx.
    destruct (IH s1) as (l2 & c & Ht2 & Hc); [|exact Hx|].
    + intros k' Hin. rewrite Htbl1.
      destruct (cancelled_in k' l1); [reflexivity|]. apply Hks. now right.
    + exists (l1 ++ l2), c. split; [|exact Hc].
      rewrite Ht2, Ht1, <- !app_assoc. reflexivity.
  - intros [= ->]. eapply Hlast; [exact Had|reflexivity].
Qed.

(** X17.  The tick handler raises no error of its own: when a tick ends
    with an exception, a callback was called during that tick and the
    exception is the one thrown by the last call made. *)
Theorem handleTick_throws_only_callback_exceptions s x :
  snd (handleTick PREDEFINED_KEYBOARD_ACTIONS s) = Abrupt x ->
  exists l c,
    added_calls s (fst (handleTick PREDEFINED_KEYBOARD_ACTIONS s)) = l ++ [c] /\
    call_result c = Abrupt x.
Proof.
  unfold handleTick, bind, gets. cbn [fst snd]. intros Hx.
  destruct (forEach_tickKey_abrupt_last (Object_keys (table s)) s x)
    as (l & c & Ht & Hc); [|exact Hx|].
  - intros k Hin. apply Object_keys_get in Hin as [ad Had]. now rewrite Had.
  - exists l, c. split; [|exact Hc]. apply (added_calls_app _ _ _ Ht).
Qed.

(** *** Frames *)

(** X18.  Without a current set the handlers do nothing at all: through any
    sequence of key-downs, key-ups and ticks the whole system stays as it
    is, so no callback is called, even for entries left [PRESSED] by a
    removed set. *)
Theorem handlers_do_nothing_without_definitions inputs s :
  _currentDefinitions (svc s) = None ->
  forallb handler_input inputs = true ->
  run keyCode PREDEFINED_KEYBOARD_ACTIONS inputs s = s.
Proof.
  intros Hc. induction inputs as [|i r IH]; [reflexivity|].
  simpl. intros Hall. apply andb_true_iff in Hall as [Hi Hr].
  assert (Hstep : step keyCode PREDEFINED_KEYBOARD_ACTIONS i s = s).
  { destruct i as [d km zone| |e|e| |f]; try discriminate; cbn [step].
    - destruct s as [[cur tbl km cs] src w tr]. simpl in Hc. subst. reflexivity.
    - destruct s as [[cur tbl km cs] src w tr]. simpl in Hc. subst. reflexivity.
    - now rewrite handleTick_without_definitions. }
  rewrite Hstep. apply IH, Hr.
Qed.

(** X19.  An install writes the entries of the keys that the new set
    declares and no other: the entry of every other key, held or not, is
    the one it had before. *)
Theorem install_keeps_entries_of_undeclared_keys defs km zone s key :
  obj_get key defs = None ->
  obj_get key (table (fst (setKeyboardControls keyCode (Some defs) km zone s)))
  = obj_get key (table s).
Proof.
  intros Hnone.
  destruct (setKeyboardControls_effect defs km zone s) as (_ & _ & _ & _ & _ & _ & H).
  rewrite H.
  destruct (in_dec JsString_eq_dec key (map fst defs)) as [Hin|]; [|reflexivity].
  apply obj_get_in in Hin as [b Hb]. congruence.
Qed.

(** X20.  A key-down and a key-up touch the entry of the key of their event
    only: the entry of every other key is unchanged, however the handler
    ends. *)
Theorem key_events_touch_own_entry e s key :
  key <> _keyMappingFn (svc s) e ->
  obj_get key (table (fst (handleKeydown e s))) = obj_get key (table s) /\
  obj_get key (table (fst (handleKeyup e s))) = obj_get key (table s).
Proof.
  intros Hne.
  destruct (handleKeydown_effect e s) as (l & _ & _ & H1 & _).
  destruct (handleKeyup_effect e s) as (l' & _ & _ & H2 & _).
  auto.
Qed.

End Properties.

(* ===================================================================== *)
(** ** The scenarios *)
(* ===================================================================== *)

Section Scenarios.

Import Demo.

Local Abbreviation table s := (_activeDefinitions (svc s)).

(** [Object.keys] puts the array indices first, in numeric order. *)
Example Object_keys_order :
  Object_keys [(js "B", 1); (js "10", 2); (js "9", 3); (js "A", 4); (js "01", 5)]
  = [js "9"; js "10"; js "B"; js "A"; js "01"].
Proof. reflexivity. Qed.

(** Key-down, two ticks, key-up of a key bound to the predefined action 0:
    the action runs twice, and nothing else is called. *)
Example held_key_runs_once_per_tick :
  trace (go [install defs_W; Keydown (press 87); Tick; Tick; Keyup (release 87)] start)
  = [CallPredefined 0 (JsObject []) (Some (press 87)) (Normal JsUndefined);
     CallPredefined 0 (JsObject []) (Some (press 87)) (Normal JsUndefined)].
Proof. reflexivity. Qed.

(** A number that the table does not know is dropped silently. *)
Example unknown_predefined_id_is_silent :
  executeAction predefined (binding (ActionId 7) None) key_W (Some (press 87)) s_forward
  = (s_forward, Normal tt).
Proof. reflexivity. Qed.

(** The parameter function is called again on each tick and sees the moves
    made in between. *)
Example params_are_resolved_on_every_tick :
  added_calls s_counting (go [Tick; Tick] s_counting)
  = [CallParams (Some (press 87)) (Normal (moves 0));
     CallAction key_W (moves 0) (Some (press 87)) (Normal JsUndefined);
     CallParams (Some (press 87)) (Normal (moves 1));
     CallAction key_W (moves 1) (Some (press 87)) (Normal JsUndefined)].
Proof. reflexivity. Qed.

(** C1 (counterexample).  [S] has cancelled during a tick and is
    [IGNORED]; its key-up calls [onDone] all the same. *)
Lemma keyup_of_ignored_key_calls_done :
  key_state key_S s_ignored = Some IGNORED /\
  added_calls s_ignored (go [Keyup (release 83)] s_ignored)
  = [CallDone key_S (Some (release 83)) (Normal JsUndefined)].
Proof. split; reflexivity. Qed.

(** C1 (instance): the key-up of the [IGNORED] key [S]. *)
Lemma handleKeyup_invokes_done_witness :
  key_state key_S s_ignored = Some IGNORED /\
  obj_get key_S (table (fst (handleKeyup (release 83) s_ignored)))
  = Some (lifted (release 83)) /\
  added_calls s_ignored (fst (handleKeyup (release 83) s_ignored))
  = [CallDone key_S (Some (release 83)) (Normal JsUndefined)] /\
  world (fst (handleKeyup (release 83) s_ignored)) = world s_ignored.
Proof.
  split; [reflexivity|].
  exact (handleKeyup_invokes_done _ _ _ (release 83) s_ignored defs_S bS
           eq_refl eq_refl).
Defined.

(** C2 (counterexample).  [W] is held under a first set; after the install
    of a set that does not declare [W], the entry of [W] is still there and
    still [PRESSED], and the next tick runs its old action. *)
Lemma reinstall_keeps_entries_of_other_keys :
  obj_get key_W defs_S = None /\
  key_state key_W s_reinstalled = Some PRESSED /\
  added_calls s_reinstalled (go [Tick] s_reinstalled)
  = [CallPredefined 0 (JsObject []) (Some (press 87)) (Normal JsUndefined)].
Proof. repeat split. Qed.

(** C2 (instance): [defs_S] is installed again while [S] is [IGNORED]. *)
Lemma setKeyboardControls_resets_declared_keys_witness :
  key_state key_S s_ignored = Some IGNORED /\
  _currentDefinitions (svc (go [install defs_S] s_ignored)) = Some defs_S /\
  obj_get key_S (table (go [install defs_S] s_ignored)) = Some released /\
  count_occ JsString_eq_dec (map fst (table (go [install defs_S] s_ignored))) key_S = 1.
Proof.
  split; [reflexivity|].
  assert (Hnd : NoDup (map fst (table s_ignored))).
  { repeat constructor. intros []. }
  exact (setKeyboardControls_resets_declared_keys _ _ _ code defs_S None false
           s_ignored key_S bS eq_refl Hnd).
Defined.

(** C3 (counterexample).  [S] is held and the set is removed; the key-down
    and the key-up handler, called in that state, throw. *)
Lemma key_handler_called_after_remove_throws :
  snd (handleKeydown (press 83) (go [RemoveKeyboardControls] s_pressed))
  = Abrupt TypeError /\
  snd (handleKeyup (release 83) (go [RemoveKeyboardControls] s_pressed))
  = Abrupt TypeError.
Proof. split; reflexivity. Qed.

(** C3 (instance): events delivered after the removal of [defs_S], while the
    entry of [S] is still [PRESSED]. *)
Lemma removed_service_ignores_events_witness :
  key_state key_S (go [RemoveKeyboardControls] s_pressed) = Some PRESSED /\
  deliver_all code predefined
    [Keydown (press 83); Tick; Keyup (release 83); Tick]
    (go [RemoveKeyboardControls] s_pressed)
  = go [RemoveKeyboardControls] s_pressed /\
  handleTick predefined (go [RemoveKeyboardControls] s_pressed)
  = (go [RemoveKeyboardControls] s_pressed, Normal tt).
Proof.
  split; [reflexivity|].
  exact ((fun H => conj (proj1 H) (proj1 (proj2 (proj2 (proj2 (proj2 H))))))
           (removed_service_ignores_events _ _ _ code predefined (press 83)
              [Keydown (press 83); Tick; Keyup (release 83); Tick] s_pressed
              eq_refl)).
Defined.

(** C4 (counterexample).  [A] and [B] are both held and [A] comes first;
    the action of [A] throws, the tick ends with that exception, and the
    action of [B] is not called on that tick. *)
Lemma throwing_action_ends_the_tick :
  key_state key_A s_two_held = Some PRESSED /\
  key_state key_B s_two_held = Some PRESSED /\
  snd (handleTick predefined s_two_held) = Abrupt boom /\
  added_calls s_two_held (go [Tick] s_two_held)
  = [CallAction key_A (JsObject []) (Some (press 65)) (Abrupt boom)] /\
  existsb (is_action_call key_B) (added_calls s_two_held (go [Tick] s_two_held)) = false.
Proof. repeat split. Qed.

(** C4 (instance): the same tick. *)
Lemma handleTick_exception_ends_tick_witness :
  handleTick predefined s_two_held
  = (fst (tickKey predefined key_A s_two_held), Abrupt boom) /\
  svc (fst (tickKey predefined key_A s_two_held)) = svc s_two_held /\
  sources (fst (tickKey predefined key_A s_two_held)) = sources s_two_held.
Proof.
  exact (handleTick_exception_ends_tick _ _ _ predefined s_two_held [] key_A [key_B]
           s_two_held (fst (tickKey predefined key_A s_two_held)) boom
           eq_refl eq_refl eq_refl).
Defined.

(** C5 (counterexample).  The [IGNORED] entry of [S] holds neither action
    nor event, and after the key-up its [NOT_PRESSED] entry holds the
    key-up event. *)
Lemma ignored_entry_holds_no_snapshot :
  obj_get key_S (table s_ignored) = Some ignored /\
  option_map snapshot_as_specified (obj_get key_S (table s_ignored)) = Some false /\
  obj_get key_S (table (go [Keyup (release 83)] s_ignored)) = Some (lifted (release 83)) /\
  option_map snapshot_as_specified
    (obj_get key_S (table (go [Keyup (release 83)] s_ignored))) = Some false.
Proof. repeat split. Qed.

(** C5 (instance): the entry of [S] after its cancellation. *)
Lemma reachable_snapshot_witness :
  reachable code predefined s_ignored /\
  obj_get key_S (table s_ignored) = Some ignored /\
  snapshot_ok (@ignored Controller DomEvent Camera) = true.
Proof.
  assert (Hr : reachable code predefined s_ignored).
  { exists tt, 0%Z, [install defs_S; Keydown (press 83); Tick]. reflexivity. }
  split; [exact Hr|]. split; [reflexivity|].
  exact (reachable_snapshot _ _ _ code predefined s_ignored key_S ignored Hr eq_refl).
Defined.


(** C7 (counterexample).  An install of the empty object [{}] leaves a
    current set and attaches the listeners; [removeKeyboardControls] leaves
    neither. *)
Lemma install_of_empty_object_is_not_remove :
  _currentDefinitions (svc (go [install []] start)) = Some [] /\
  sources (go [install []] start)
  = {| keydownListener := Some false; keyupListener := Some false;
       tickListeners := [false] |} /\
  _currentDefinitions (svc (go [RemoveKeyboardControls] start)) = None /\
  sources (go [RemoveKeyboardControls] start)
  = {| keydownListener := None; keyupListener := None; tickListeners := [] |}.
Proof. repeat split. Qed.

(** C8 (instance): the predefined action 0 on the held key [W]. *)
Lemma predefined_action_execution_witness :
  svc (fst (executeAction predefined bW key_W (Some (press 87)) s_forward))
  = svc s_forward /\
  world (fst (executeAction predefined bW key_W (Some (press 87)) s_forward)) = 1%Z /\
  trace (fst (executeAction predefined bW key_W (Some (press 87)) s_forward))
  = [CallPredefined 0 (JsObject []) (Some (press 87)) (Normal JsUndefined)] /\
  snd (executeAction predefined bW key_W (Some (press 87)) s_forward) = Normal tt.
Proof.
  exact ((fun H => conj (proj1 H) (proj1 (proj2 H)))
           (predefined_action_execution _ _ _ predefined bW key_W (Some (press 87))
              s_forward defs_W 0%Z eq_refl eq_refl)).
Defined.

(** C9 (instance): one execution with the parameter function
    [moves_so_far]. *)
Lemma getParams_resolution_witness :
  added_calls s_counting
    (fst (executeAction predefined bCount key_W (Some (press 87)) s_counting))
  = [CallParams (Some (press 87)) (Normal (moves 0));
     CallAction key_W (moves 0) (Some (press 87)) (Normal JsUndefined)].
Proof.
  exact (proj2 (proj2 (getParams_resolution _ _ _ predefined (Some (press 87)) s_counting))
           bCount key_W defs_count moves_so_far move eq_refl eq_refl eq_refl).
Defined.

(** C10 (instance): the cancellation of [S] and the entry of [W]. *)
Lemma cancellation_is_local_witness :
  key_W <> key_S /\
  obj_get key_W (table (fst (executeAction predefined bS key_S (Some (press 83)) s_pressed)))
  = obj_get key_W (table s_pressed) /\
  _currentDefinitions
    (svc (fst (executeAction predefined bS key_S (Some (press 83)) s_pressed)))
  = _currentDefinitions (svc s_pressed).
Proof.
  assert (Hne : key_W <> key_S) by discriminate.
  split; [exact Hne|].
  exact ((fun H => conj (proj1 H) (proj1 (proj2 H)))
           (cancellation_is_local _ _ _ predefined bS key_S (Some (press 83)) key_W
              s_pressed Hne)).
Defined.


(** *** Instances of the further properties *)

(** X1 (instance): [W] is not declared by [defs_S]. *)
Lemma unbound_key_events_are_dropped_witness :
  handleKeydown (press 87) s_pressed = (s_pressed, Normal tt) /\
  handleKeyup (release 87) s_pressed = (s_pressed, Normal tt).
Proof.
  split.
  - exact (proj1 (unbound_key_events_are_dropped _ _ _ (press 87) s_pressed defs_S
                    eq_refl eq_refl eq_refl)).
  - exact (proj2 (unbound_key_events_are_dropped _ _ _ (release 87) s_pressed defs_S
                    eq_refl eq_refl eq_refl)).
Defined.

(** X2 (instance): the first key-down of [W] under [defs_W]. *)
Lemma handleKeydown_accepts_without_validation_witness :
  obj_get key_W (table (fst (handleKeydown (press 87) (go [install defs_W] start))))
  = Some (pressed (press 87) bW) /\
  snd (handleKeydown (press 87) (go [install defs_W] start)) = Normal tt /\
  added_calls (go [install defs_W] start)
    (fst (handleKeydown (press 87) (go [install defs_W] start))) = [].
Proof.
  refine (handleKeydown_accepts_without_validation _ _ _ (press 87)
            (go [install defs_W] start) defs_W bW released (JsObject [])
            eq_refl eq_refl eq_refl eq_refl _ eq_refl).
  discriminate.
Defined.

(** X3 (instance): the key-down of [A], whose validation refuses. *)
Lemma handleKeydown_validation_gate_witness :
  trace (fst (handleKeydown (press 65) s_guarded))
  = [CallParams (Some (press 65)) (Normal (moves 0));
     CallValidation key_A (moves 0) (Some (press 65)) (Normal (JsBool false))] /\
  world (fst (handleKeydown (press 65) s_guarded)) = 0%Z /\
  table (fst (handleKeydown (press 65) s_guarded)) = table s_guarded /\
  snd (handleKeydown (press 65) s_guarded) = Normal tt.
Proof.
  refine (handleKeydown_validation_gate _ _ _ (press 65) s_guarded defs_guarded
            bRefused released refuse (moves 0)
            eq_refl eq_refl eq_refl eq_refl _ eq_refl).
  discriminate.
Defined.

(** X4 (instance): a repeated key-down of the cancelled key [S]. *)
Lemma handleKeydown_on_ignored_key_does_nothing_witness :
  handleKeydown (press 83) s_ignored = (s_ignored, Normal tt).
Proof.
  exact (handleKeydown_on_ignored_key_does_nothing _ _ _ (press 83) s_ignored defs_S bS
           ignored eq_refl eq_refl eq_refl eq_refl).
Defined.

(** X5 (instance): the key-down of [B], whose validation throws. *)
Lemma handleKeydown_exception_keeps_service_witness :
  snd (handleKeydown (press 66) s_guarded) = Abrupt boom /\
  svc (fst (handleKeydown (press 66) s_guarded)) = svc s_guarded /\
  sources (fst (handleKeydown (press 66) s_guarded)) = sources s_guarded.
Proof.
  split; [reflexivity|].
  exact (handleKeydown_exception_keeps_service _ _ _ (press 66) s_guarded
           (fst (handleKeydown (press 66) s_guarded)) boom eq_refl).
Defined.

(** X6 (instance): the state in which [S] has cancelled. *)
Lemma reachable_listeners_match_definitions_witness :
  listeners_match s_ignored = true /\
  List.length (tickListeners (sources s_ignored)) = 1.
Proof.
  refine (reachable_listeners_match_definitions _ _ _ code predefined s_ignored _).
  exists tt, 0%Z, [install defs_S; Keydown (press 83); Tick]. reflexivity.
Defined.

(** X7 (instance): two removals after the cancellation of [S]. *)
Lemma removeKeyboardControls_idempotent_witness :
  removeKeyboardControls (fst (removeKeyboardControls s_ignored))
  = (fst (removeKeyboardControls s_ignored), Normal tt).
Proof.
  refine (removeKeyboardControls_idempotent _ _ _ code predefined s_ignored _).
  exists tt, 0%Z, [install defs_S; Keydown (press 83); Tick]. reflexivity.
Defined.

(** X8 (instance): [defs_W] installed over [defs_S], outside the zone this
    time. *)
Lemma reinstall_keeps_listeners_witness :
  sources (fst (setKeyboardControls code (Some defs_W) None true s_pressed))
  = {| keydownListener := Some false; keyupListener := Some false;
       tickListeners := [false] |}.
Proof.
  exact (reinstall_keeps_listeners _ _ _ code defs_W None true s_pressed defs_S eq_refl).
Defined.

(** X11 (instance): the entry of [S] through a removal and the install of
    [defs_W]. *)
Lemma entries_are_never_deleted_witness :
  populated (obj_get key_S
               (table (go [RemoveKeyboardControls; install defs_W] s_pressed))) = true.
Proof.
  exact (entries_are_never_deleted _ _ _ code predefined
           [RemoveKeyboardControls; install defs_W] s_pressed key_S eq_refl).
Defined.

(** X12 (instance): the key [S] of [defs_S]. *)
Lemma reachable_declared_keys_have_entries_witness :
  populated (obj_get key_S (table s_ignored)) = true.
Proof.
  refine (reachable_declared_keys_have_entries _ _ _ code predefined s_ignored defs_S
            key_S bS _ eq_refl eq_refl).
  exists tt, 0%Z, [install defs_S; Keydown (press 83); Tick]. reflexivity.
Defined.

(** X14 (instance): a tick while [S] is [IGNORED]. *)
Lemma handleTick_without_held_key_does_nothing_witness :
  handleTick predefined s_ignored = (s_ignored, Normal tt).
Proof.
  exact (handleTick_without_held_key_does_nothing _ _ _ predefined s_ignored eq_refl).
Defined.

(** X15 (instance): a tick while [W] is held with the callback [move]. *)
Lemma handleTick_calls_held_action_once_witness :
  snd (handleTick predefined s_counting) = Normal tt /\
  List.length (filter (is_action_call key_W)
                 (added_calls s_counting (fst (handleTick predefined s_counting)))) = 1.
Proof.
  split; [reflexivity|].
  assert (Hnd : NoDup (map fst (table s_counting))).
  { repeat constructor. intros []. }
  exact (proj2 (handleTick_calls_held_action_once _ _ _ predefined s_counting key_W
                  (pressed (press 87) bCount) bCount move defs_count
                  Hnd eq_refl eq_refl eq_refl eq_refl eq_refl) eq_refl).
Defined.

(** X16 (instance): [W], bound to the predefined action 0, was released;
    ticks and a further key-up follow, and nothing at all is called. *)
Lemma unheld_key_is_not_run_witness :
  key_state key_W (go [Keyup (release 87)] s_forward) = Some NOT_PRESSED /\
  added_calls (go [Keyup (release 87)] s_forward)
    (go [Tick; Keyup (release 87); Tick] (go [Keyup (release 87)] s_forward)) = [] /\
  handleTick predefined (go [Tick] (go [Keyup (release 87)] s_forward))
  = (go [Tick] (go [Keyup (release 87)] s_forward), Normal tt).
Proof.
  split; [reflexivity|]. split; [reflexivity|].
  refine (proj2 (proj2 (unheld_key_is_not_run _ _ _ code predefined key_W
                          [Tick; Keyup (release 87); Tick]
                          (go [Keyup (release 87)] s_forward) _ eq_refl)) 1).
  discriminate.
Defined.

(** X17 (instance): the tick in which the action of [A] throws. *)
Lemma handleTick_throws_only_callback_exceptions_witness :
  exists l c,
    added_calls s_two_held (fst (handleTick predefined s_two_held)) = l ++ [c] /\
    call_result c = Abrupt boom.
Proof.
  exact (handleTick_throws_only_callback_exceptions _ _ _ predefined s_two_held boom
           eq_refl).
Defined.

(** X18 (instance): [S] is held, the set is removed, events and ticks
    follow. *)
Lemma handlers_do_nothing_without_definitions_witness :
  key_state key_S (go [RemoveKeyboardControls] s_pressed) = Some PRESSED /\
  go [Tick; Keydown (press 83); Keyup (release 83); Tick]
    (go [RemoveKeyboardControls] s_pressed)
  = go [RemoveKeyboardControls] s_pressed.
Proof.
  split; [reflexivity|].
  exact (handlers_do_nothing_without_definitions _ _ _ code predefined
           [Tick; Keydown (press 83); Keyup (release 83); Tick]
           (go [RemoveKeyboardControls] s_pressed) eq_refl eq_refl).
Defined.

(** X19 (instance): [W] is held under [defs_W], then [defs_S] is
    installed. *)
Lemma install_keeps_entries_of_undeclared_keys_witness :
  obj_get key_W (table (fst (setKeyboardControls code (Some defs_S) None false s_forward)))
  = Some (pressed (press 87) bW).
Proof.
  exact (install_keeps_entries_of_undeclared_keys _ _ _ code defs_S None false
           s_forward key_W eq_refl).
Defined.

(** X20 (instance): events of [W] while [S] is held. *)
Lemma key_events_touch_own_entry_witness :
  obj_get key_S (table (fst (handleKeydown (press 87) s_pressed)))
  = obj_get key_S (table s_pressed) /\
  obj_get key_S (table (fst (handleKeyup (release 87) s_pressed)))
  = obj_get key_S (table s_pressed).
Proof.
  assert (Hne : key_S <> key_W) by discriminate.
  split.
  - exact (proj1 (key_events_touch_own_entry _ _ _ (press 87) s_pressed key_S Hne)).
  - exact (proj2 (key_events_touch_own_entry _ _ _ (release 87) s_pressed key_S Hne)).
Defined.

End Scenarios.
